(** * Jodit 3.3.8: synchronisation, command dispatch, mode and lock state

    A shallow embedding of the parts of [src/Jodit.ts] and of the [Panel]
    base class that coordinate the editor with its source element:
    [getEditorValue] / [setEditorValue] / [setElementValue], the command
    registry ([registerCommand], [registerHotkeyToCommand], [execCommand],
    [execCustomCommands]), the mode switch ([setMode]), the readonly and
    disabled flags, and the lock protocol.

    How the program is represented:
    - The DOM is reduced to the cells the methods read and write: the
      serialized content of the editable region, the value of the source
      element, and a handful of attributes and classes.  Assigning
      [innerHTML] stores the string as given.
    - Event handlers and custom commands are JavaScript closures; they are
      represented by small scripts that can return, throw, leave an
      observable mark, rewrite the payload object they were handed, and
      call back into [setEditorValue], [getEditorValue] and [execCommand].
    - A method is a function from the instance to the list of things an
      observer saw and the way the call ended.  Calls that re-enter the
      instance go through a parameter, which the interpreter [run] ties
      back to the methods up to a given nesting depth.
    - The event bus, the selection helper and a few helpers are not among
      the sources.  The bus is given the behaviour its callers rely on
      (every handler of the event is invoked, in registration order) and
      the way it combines the values the handlers return is a parameter of
      the whole development, like the primitives of the browser.
    - Objects used as dictionaries ([commands], [commandToHotkeys]) are
      finite maps over their own keys. *)

From Stdlib Require Import ZArith String Ascii List Bool Lia.
From Stdlib Require Import DecimalString DecimalPos.
From stdpp Require Import base gmap strings list.
Import ListNotations.

Local Open Scope string_scope.

(** ** JavaScript values and the string primitives the methods use *)

Module Js.

(** The values that travel through the modelled methods.  Numbers are the
    integers; [VNaN] is what [parseInt] yields when no digit is found. *)
Inductive jsval :=
| VUndef
| VNull
| VBool (b : bool)
| VNum (z : Z)
| VNaN
| VStr (s : string).

#[global] Instance jsval_eq_dec : EqDecision jsval.
Proof. solve_decision. Defined.

(** [a === b]: equality of tag and content, except that NaN differs from
    itself. *)
Definition strict_eq (a b : jsval) : bool :=
  match a, b with
  | VNaN, _ | _, VNaN => false
  | _, _ => bool_decide (a = b)
  end.

Definition VFalse : jsval := VBool false.
Definition VTrue : jsval := VBool true.

(** [typeof v !== 'string' && v !== undefined] *)
Definition not_string_nor_undefined (v : jsval) : bool :=
  match v with
  | VStr _ | VUndef => false
  | _ => true
  end.

(** [String.prototype.toLowerCase] on the ASCII range (command names and
    hotkeys are ASCII identifiers). *)
Definition lower_ascii (c : ascii) : ascii :=
  let n := nat_of_ascii c in
  if (65 <=? n)%nat && (n <=? 90)%nat then ascii_of_nat (n + 32) else c.

Fixpoint toLowerCase (s : string) : string :=
  match s with
  | EmptyString => EmptyString
  | String c r => String (lower_ascii c) (toLowerCase r)
  end.

(** [parseInt(s, 10)]: leading white space, an optional sign, then the
    longest run of decimal digits; NaN when that run is empty. *)
Definition is_space (c : ascii) : bool :=
  let n := nat_of_ascii c in
  (n =? 32)%nat || ((9 <=? n)%nat && (n <=? 13)%nat).

Definition digit_of (c : ascii) : option Z :=
  let n := nat_of_ascii c in
  if (48 <=? n)%nat && (n <=? 57)%nat then Some (Z.of_nat (n - 48)) else None.

Fixpoint skip_spaces (s : string) : string :=
  match s with
  | String c r => if is_space c then skip_spaces r else s
  | EmptyString => s
  end.

Fixpoint digits_prefix (s : string) (acc : option Z) : option Z :=
  match s with
  | String c r =>
      match digit_of c with
      | Some d => digits_prefix r (Some (10 * default 0%Z acc + d)%Z)
      | None => acc
      end
  | EmptyString => acc
  end.

Definition parseInt10 (s : string) : jsval :=
  let body := skip_spaces s in
  let '(neg, rest) :=
    match body with
    | String "-" r => (true, r)
    | String "+" r => (false, r)
    | _ => (false, body)
    end in
  match digits_prefix rest None with
  | Some z => VNum (if neg : bool then - z else z)
  | None => VNaN
  end.

(** [Number.prototype.toString] for an integer, in decimal. *)
Definition number_toString (z : Z) : string :=
  NilZero.string_of_int (Z.to_int z).

End Js.

Export Js.

(** ** Panel: the lockable base component (the Panel class) *)

Module Panel.

(** The fields of [Panel] the methods below touch.  [container] tells
    whether the container node is still attached to the object. *)
Record t := Make {
  __whoLocked : string;
  __isFullSize : bool;
  isDestructed : bool;
  container : bool
}.

(** State of a freshly constructed panel. *)
Definition fresh : t :=
  {| __whoLocked := ""; __isFullSize := false;
     isDestructed := false; container := true |}.

(** [isLocked = () => this.__whoLocked !== ''] *)
Definition isLocked (p : t) : bool :=
  negb (String.eqb (__whoLocked p) "").

(** [isLockedNotBy = name => this.isLocked() && this.__whoLocked !== name] *)
Definition isLockedNotBy (name : string) (p : t) : bool :=
  isLocked p && negb (String.eqb (__whoLocked p) name).

(** The holder of the lock, if the panel is locked. *)
Definition holder (p : t) : option string :=
  if isLocked p then Some (__whoLocked p) else None.

(** The default of the optional argument: [lock(name = 'any')]. *)
Definition lock_name (name : option string) : string := default "any" name.

(** [lock]: returns the flag and the panel after the call. *)
Definition lock (name : option string) (p : t) : bool * t :=
  if negb (isLocked p)
  then (true, {| __whoLocked := lock_name name;
                 __isFullSize := __isFullSize p;
                 isDestructed := isDestructed p;
                 container := container p |})
  else (false, p).

(** [unlock] *)
Definition unlock (p : t) : bool * t :=
  if isLocked p
  then (true, {| __whoLocked := "";
                 __isFullSize := __isFullSize p;
                 isDestructed := isDestructed p;
                 container := container p |})
  else (false, p).

(** [isFullSize = () => this.__isFullSize] *)
Definition isFullSize (p : t) : bool := __isFullSize p.

(** [toggleFullSize(isFullSize?)] *)
Definition toggleFullSize (requested : option bool) (p : t) : t :=
  let wanted := default (negb (__isFullSize p)) requested in
  if Bool.eqb wanted (__isFullSize p) then p
  else {| __whoLocked := __whoLocked p; __isFullSize := wanted;
          isDestructed := isDestructed p; container := container p |}.

(** Modelled from the spec: [Component.destruct], the [super.destruct()]
    of [Panel.destruct], is not among the sources; a destructed component
    "reports itself already destructed", so it raises the flag. *)
Definition component_destruct (p : t) : t :=
  {| __whoLocked := __whoLocked p; __isFullSize := __isFullSize p;
     isDestructed := true; container := container p |}.

(** [Panel.destruct]:
    [if (!this.isDestructed) return;] then the container is removed and
    deleted and the base destructor runs. *)
Definition destruct (p : t) : t :=
  if negb (isDestructed p) then p
  else component_destruct
         {| __whoLocked := __whoLocked p; __isFullSize := __isFullSize p;
            isDestructed := isDestructed p; container := false |}.

End Panel.

(** ** The editor instance (the Jodit class) *)

Module Jodit.

(** [const SAFE_COUNT_CHANGE_CALL = 10;] *)
Definition SAFE_COUNT_CHANGE_CALL : nat := 10.

(** The mode constants.  Their values are fixed by the source itself:
    [modeClasses[this.mode - 1]] indexes
    [['jodit_wysiwyg_mode', 'jodit_source_mode', 'jodit_split_mode']]. *)
Definition MODE_WYSIWYG : Z := 1.
Definition MODE_SOURCE : Z := 2.
Definition MODE_SPLIT : Z := 3.

(** *** Handlers *)

(** The body of an event handler or of a custom command.  A handler can
    return a value, throw, leave a mark an observer can see, assign the
    field of the payload object it received ([data.mode = ...],
    [new_value.value = ...]) and call the editor's public methods. *)
Inductive script :=
| Ret (v : jsval)
| Throw (msg : string)
| Emit (tag : string) (k : script)
| SetPayload (v : jsval) (k : script)
| CallSetEditorValue (v : jsval) (k : script)
| CallGetEditorValue (k : jsval -> script)
| CallExecCommand (command : string) (showUI value : jsval)
                  (k : jsval -> script).

(** A handler receives the arguments of the event. *)
Definition callback : Type := list jsval -> script.

(** [string | string[]]: a hotkey or an array of hotkeys. *)
Inductive hotkeys :=
| HkString (s : string)
| HkArray (l : list string).

(** [CustomCommand]: a function, or an object [{ exec, hotkeys? }]. *)
Inductive custom_command :=
| CmdFunction (f : callback)
| CmdObject (exec : callback) (hk : option hotkeys).

(** Modelled from the spec: the event bus ([this.events]) is not among
    the sources.  One subscription, [on('name.namespace', handler)]: an
    event name, a namespace (empty when none is given) and the handler. *)
Record binding := Binding {
  b_event : string;
  b_namespace : string;
  b_handler : callback
}.

(** What an observer of the instance can see happen. *)
Inductive obs :=
| OFire (event : string) (args : list jsval)
| OEmit (tag : string)
| OFocus
| OSelectAll
| ONative (command : string) (showUI value : jsval)
| OSelectionSave
| OSelectionRestore.

#[global] Instance obs_eq_dec : EqDecision obs.
Proof. solve_decision. Defined.

(** *** State *)

(** The options the modelled methods read or write. *)
Record Config := {
  readonly : bool;
  disabled : bool;
  saveModeInStorage : bool;
  commandToHotkeys : gmap string hotkeys
}.

(** Attributes and classes set on the editable region and the container. *)
Record dom := {
  contenteditable : bool;
  aria_disabled : bool;
  container_disabled : bool;
  editor_disabled : bool;
  mode_class : option string
}.

(** The instance.  [element_value] is what [getElementValue] reads from
    the source element, [inline] is [this.element === this.container],
    [editor] is the [innerHTML] of the editable region, [None] when
    [this.editor] does not exist.  The selection helper is created and
    deleted together with the editable region. *)
Record state := {
  element_value : string;
  inline : bool;
  editor : option string;
  __callChangeCount : nat;
  options : Config;
  __wasReadOnly : bool;
  mode : Z;
  stored_mode : option Z;
  commands : gmap string (list custom_command);
  events : list binding;
  panel : Panel.t;
  __selectionLocked : bool;
  view : dom
}.

Definition set_readonly (x : bool) (o : Config) : Config :=
  {| readonly := x; disabled := disabled o;
     saveModeInStorage := saveModeInStorage o;
     commandToHotkeys := commandToHotkeys o |}.

Definition set_disabled (x : bool) (o : Config) : Config :=
  {| readonly := readonly o; disabled := x;
     saveModeInStorage := saveModeInStorage o;
     commandToHotkeys := commandToHotkeys o |}.

Definition set_contenteditable (x : bool) (d : dom) : dom :=
  {| contenteditable := x; aria_disabled := aria_disabled d;
     container_disabled := container_disabled d;
     editor_disabled := editor_disabled d; mode_class := mode_class d |}.

Definition set_aria_disabled (x : bool) (d : dom) : dom :=
  {| contenteditable := contenteditable d; aria_disabled := x;
     container_disabled := container_disabled d;
     editor_disabled := editor_disabled d; mode_class := mode_class d |}.

Definition set_container_disabled (x : bool) (d : dom) : dom :=
  {| contenteditable := contenteditable d; aria_disabled := aria_disabled d;
     container_disabled := x; editor_disabled := editor_disabled d;
     mode_class := mode_class d |}.

Definition set_editor_disabled (x : bool) (d : dom) : dom :=
  {| contenteditable := contenteditable d; aria_disabled := aria_disabled d;
     container_disabled := container_disabled d; editor_disabled := x;
     mode_class := mode_class d |}.

Definition set_mode_class (x : option string) (d : dom) : dom :=
  {| contenteditable := contenteditable d; aria_disabled := aria_disabled d;
     container_disabled := container_disabled d;
     editor_disabled := editor_disabled d; mode_class := x |}.

Definition set_element_value (x : string) (s : state) : state :=
  {| element_value := x; inline := inline s; editor := editor s;
     __callChangeCount := __callChangeCount s; options := options s;
     __wasReadOnly := __wasReadOnly s; mode := mode s;
     stored_mode := stored_mode s; commands := commands s;
     events := events s; panel := panel s;
     __selectionLocked := __selectionLocked s; view := view s |}.

Definition set_editor (x : option string) (s : state) : state :=
  {| element_value := element_value s; inline := inline s; editor := x;
     __callChangeCount := __callChangeCount s; options := options s;
     __wasReadOnly := __wasReadOnly s; mode := mode s;
     stored_mode := stored_mode s; commands := commands s;
     events := events s; panel := panel s;
     __selectionLocked := __selectionLocked s; view := view s |}.

Definition set_callChangeCount (x : nat) (s : state) : state :=
  {| element_value := element_value s; inline := inline s;
     editor := editor s; __callChangeCount := x; options := options s;
     __wasReadOnly := __wasReadOnly s; mode := mode s;
     stored_mode := stored_mode s; commands := commands s;
     events := events s; panel := panel s;
     __selectionLocked := __selectionLocked s; view := view s |}.

Definition set_options (x : Config) (s : state) : state :=
  {| element_value := element_value s; inline := inline s;
     editor := editor s; __callChangeCount := __callChangeCount s; options := x;
     __wasReadOnly := __wasReadOnly s; mode := mode s;
     stored_mode := stored_mode s; commands := commands s;
     events := events s; panel := panel s;
     __selectionLocked := __selectionLocked s; view := view s |}.

Definition set_wasReadOnly (x : bool) (s : state) : state :=
  {| element_value := element_value s; inline := inline s;
     editor := editor s; __callChangeCount := __callChangeCount s;
     options := options s; __wasReadOnly := x; mode := mode s;
     stored_mode := stored_mode s; commands := commands s;
     events := events s; panel := panel s;
     __selectionLocked := __selectionLocked s; view := view s |}.

Definition set_mode (x : Z) (s : state) : state :=
  {| element_value := element_value s; inline := inline s;
     editor := editor s; __callChangeCount := __callChangeCount s;
     options := options s; __wasReadOnly := __wasReadOnly s; mode := x;
     stored_mode := stored_mode s; commands := commands s;
     events := events s; panel := panel s;
     __selectionLocked := __selectionLocked s; view := view s |}.

Definition set_stored_mode (x : option Z) (s : state) : state :=
  {| element_value := element_value s; inline := inline s;
     editor := editor s; __callChangeCount := __callChangeCount s;
     options := options s; __wasReadOnly := __wasReadOnly s; mode := mode s;
     stored_mode := x; commands := commands s; events := events s;
     panel := panel s; __selectionLocked := __selectionLocked s;
     view := view s |}.

Definition set_commands (x : gmap string (list custom_command)) (s : state) : state :=
  {| element_value := element_value s; inline := inline s;
     editor := editor s; __callChangeCount := __callChangeCount s;
     options := options s; __wasReadOnly := __wasReadOnly s; mode := mode s;
     stored_mode := stored_mode s; commands := x; events := events s;
     panel := panel s; __selectionLocked := __selectionLocked s;
     view := view s |}.

Definition set_events (x : list binding) (s : state) : state :=
  {| element_value := element_value s; inline := inline s;
     editor := editor s; __callChangeCount := __callChangeCount s;
     options := options s; __wasReadOnly := __wasReadOnly s; mode := mode s;
     stored_mode := stored_mode s; commands := commands s; events := x;
     panel := panel s; __selectionLocked := __selectionLocked s;
     view := view s |}.

Definition set_panel (x : Panel.t) (s : state) : state :=
  {| element_value := element_value s; inline := inline s;
     editor := editor s; __callChangeCount := __callChangeCount s;
     options := options s; __wasReadOnly := __wasReadOnly s; mode := mode s;
     stored_mode := stored_mode s; commands := commands s;
     events := events s; panel := x; __selectionLocked := __selectionLocked s;
     view := view s |}.

Definition set_selectionLocked (x : bool) (s : state) : state :=
  {| element_value := element_value s; inline := inline s;
     editor := editor s; __callChangeCount := __callChangeCount s;
     options := options s; __wasReadOnly := __wasReadOnly s; mode := mode s;
     stored_mode := stored_mode s; commands := commands s;
     events := events s; panel := panel s; __selectionLocked := x;
     view := view s |}.

Definition set_view (x : dom) (s : state) : state :=
  {| element_value := element_value s; inline := inline s;
     editor := editor s; __callChangeCount := __callChangeCount s;
     options := options s; __wasReadOnly := __wasReadOnly s; mode := mode s;
     stored_mode := stored_mode s; commands := commands s;
     events := events s; panel := panel s;
     __selectionLocked := __selectionLocked s; view := x |}.

(** *** Platform *)

(** What the methods take from outside the sources: the primitives of the
    browser and the helpers of the repository that are not in [src/].
    - [fire_result acc r]: how the event bus folds the value [r] returned
      by the next handler into the result [acc] of [fire], which starts
      as [undefined];
    - [normalizeKeyAliases]: the helper that normalises a hotkey;
    - [replaceInvisibleSpace]: [s.replace(INVISIBLE_SPACE_REG_EXP, '')];
    - [replaceSelectionMarkers]: the removal of every
      [<span ... id="jodit_selection_marker_..."></span>];
    - [nativeExecCommand]: [document.execCommand] on the editable content;
      [None] when it throws, else its result and the new content. *)
Record platform := {
  fire_result : jsval -> jsval -> jsval;
  normalizeKeyAliases : string -> string;
  replaceInvisibleSpace : string -> string;
  replaceSelectionMarkers : string -> string;
  nativeExecCommand :
    string -> jsval -> jsval -> string -> option (jsval * string)
}.

(** *** Computations on the instance *)

(** How a call ends: normally, by an exception, or cut off because the
    nesting of re-entrant calls went deeper than the bound given. *)
Inductive res (A : Type) :=
| Ok (a : A) (s : state)
| Exn (msg : string) (s : state)
| Fuel.

Arguments Ok {A} a s.
Arguments Exn {A} msg s.
Arguments Fuel {A}.

(** A method maps the instance to what was observed and how it ended. *)
Definition M (A : Type) : Type := state -> list obs * res A.

Definition ret {A} (a : A) : M A := fun s => ([], Ok a s).

Definition bind {A B} (m : M A) (k : A -> M B) : M B :=
  fun s =>
    match m s with
    | (t1, Ok a s1) => let '(t2, r) := k a s1 in ((t1 ++ t2)%list, r)
    | (t1, Exn msg s1) => (t1, Exn msg s1)
    | (t1, Fuel) => (t1, Fuel)
    end.

Definition throw {A} (msg : string) : M A := fun s => ([], Exn msg s).

Definition emit (o : obs) : M unit := fun s => ([o], Ok tt s).

Definition gets {A} (f : state -> A) : M A := fun s => ([], Ok (f s) s).

Definition modify (f : state -> state) : M unit := fun s => ([], Ok tt (f s)).

(** [try { m } finally { fin }] where [fin] is an assignment. *)
Definition finally {A} (m : M A) (fin : state -> state) : M A :=
  fun s =>
    match m s with
    | (t, Ok a s1) => (t, Ok a (fin s1))
    | (t, Exn msg s1) => (t, Exn msg (fin s1))
    | (t, Fuel) => (t, Fuel)
    end.

(** The methods are written with stdpp's monad notations
    ([x ← m; k] and [m ;; k]). *)
#[global] Instance M_ret : MRet M := @ret.
#[global] Instance M_bind : MBind M := fun A B k m => bind m k.

(** The public methods a handler can call back into. *)
Inductive call :=
| CSetEditorValue (value : jsval)
| CGetEditorValue (removeSelectionMarkers : bool)
| CExecCommand (command : string) (showUI value : jsval).

(** [x === undefined ? d : x]: a parameter with a default value. *)
Definition or_default (d x : jsval) : jsval :=
  match x with VUndef => d | _ => x end.

(** Modelled from the spec: the event bus is not among the sources.  The
    handlers subscribed to an event, whatever their namespace, in
    registration order. *)
Definition handlers_for (name : string) (s : state) : list callback :=
  List.map b_handler
    (List.filter (fun b => String.eqb (b_event b) name) (events s)).

Section Methods.

Variable P : platform.

(** [rec] stands for a call that re-enters the instance: from a handler,
    or from [setElementValue] back into [setEditorValue]. *)
Variable rec : call -> M jsval.

(** Running the body of a handler; [payload] is the field of the object
    the event carries.  The result is the value returned and the field. *)
Fixpoint run_script (sc : script) (payload : jsval) : M (jsval * jsval) :=
  match sc with
  | Ret v => mret (v, payload)
  | Throw msg => throw msg
  | Emit tag k => emit (OEmit tag) ;; run_script k payload
  | SetPayload v k => run_script k v
  | CallSetEditorValue v k =>
      rec (CSetEditorValue v) ;; run_script k payload
  | CallGetEditorValue k =>
      v ← rec (CGetEditorValue true); run_script (k v) payload
  | CallExecCommand c showUI value k =>
      r ← rec (CExecCommand c showUI value); run_script (k r) payload
  end.

(** Modelled from the spec: the event bus is not among the sources.
    [fire] "invokes handlers in registration order", all of them; an
    exception of a handler ends the round.  [mkargs] builds the arguments
    from the current payload; [result] is the result of [fire] so far,
    combined with the value of each handler by the platform. *)
Fixpoint run_handlers (hs : list callback) (mkargs : jsval -> list jsval)
    (payload result : jsval) : M (jsval * jsval) :=
  match hs with
  | [] => mret (result, payload)
  | h :: hs' =>
      '(r, payload') ← run_script (h (mkargs payload)) payload;
      run_handlers hs' mkargs payload' (fire_result P result r)
  end.

(** Modelled from the spec: [this.events.fire(name, ...args)], of the
    event bus that is not among the sources: the firing is observable, the
    handlers of the event run, the combined result is returned. *)
Definition fire (name : string) (args : list jsval) : M jsval :=
  emit (OFire name args) ;;
  hs ← gets (handlers_for name);
  '(r, _) ← run_handlers hs (fun _ => args) VUndef VUndef;
  mret r.

(** Modelled from the spec: [this.events.fire(name, obj)] where [obj] is
    an object with one field that the handlers may assign ("a mutable
    [{mode}] payload", "a mutable value holder"); returns the result and
    the field. *)
Definition fire_with_payload (name : string) (payload : jsval)
    : M (jsval * jsval) :=
  emit (OFire name [payload]) ;;
  hs ← gets (handlers_for name);
  run_handlers hs (fun p => [p]) payload VUndef.

(** [getElementValue] *)
Definition getElementValue (s : state) : string := element_value s.

(** [getNativeEditorValue] *)
Definition getNativeEditorValue (s : state) : string :=
  match editor s with
  | Some html => html
  | None => getElementValue s
  end.

(** [setNativeEditorValue] *)
Definition setNativeEditorValue (value : string) (s : state) : state :=
  match editor s with
  | Some _ => set_editor (Some value) s
  | None => s
  end.

(** The value [getEditorValue] computes from the native one when no
    [beforeGetValueFromEditor] handler overrides it. *)
Definition clean_value (removeSelectionMarkers : bool) (native : string)
    : string :=
  let value := replaceInvisibleSpace P native in
  let value :=
    if removeSelectionMarkers then replaceSelectionMarkers P value
    else value in
  if String.eqb value "<br>" then "" else value.

(** [getEditorValue(removeSelectionMarkers = true)] *)
Definition getEditorValue (removeSelectionMarkers : bool) : M jsval :=
  value ← fire "beforeGetValueFromEditor" [];
  if negb (strict_eq value VUndef) then mret value
  else
    native ← gets getNativeEditorValue;
    let value := clean_value removeSelectionMarkers native in
    '(_, new_value) ←
      fire_with_payload "afterGetValueFromEditor" (VStr value);
    mret new_value.

(** [setElementValue(value?)] *)
Definition setElementValue (value : jsval) : M unit :=
  if not_string_nor_undefined value then throw "value must be string"
  else
    value ←
      match value with
      | VStr v =>
          isContainer ← gets inline;
          (if negb isContainer then modify (set_element_value v)
           else mret tt) ;;
          mret (VStr v)
      | _ => v ← gets getElementValue; mret (VStr v)
      end;
    current ← getEditorValue true;
    if negb (strict_eq value current)
    then rec (CSetEditorValue value) ;; mret tt
    else mret tt.

(** [setEditorValue(value?)] *)
Definition setEditorValue (value : jsval) : M unit :=
  newValue ← fire "beforeSetValueToEditor" [value];
  if strict_eq newValue VFalse then mret tt
  else
    let value := match newValue with VStr _ => newValue | _ => value end in
    ed ← gets editor;
    match ed with
    | None =>
        if negb (strict_eq value VUndef) then setElementValue value
        else mret tt
    | Some html =>
        if not_string_nor_undefined value then throw "value must be string"
        else
          match value with
          | VStr v =>
              if negb (String.eqb html v)
              then modify (setNativeEditorValue v) else mret tt
          | _ => mret tt
          end ;;
          old_value ← gets getElementValue;
          new_value ← getEditorValue true;
          count ← gets __callChangeCount;
          if negb (strict_eq (VStr old_value) new_value)
             && (count <? SAFE_COUNT_CHANGE_CALL)%nat
          then
            setElementValue new_value ;;
            modify (fun s => set_callChangeCount (__callChangeCount s + 1) s) ;;
            finally (fire "change" [new_value; VStr old_value])
                    (set_callChangeCount 0) ;;
            mret tt
          else mret tt
    end.

(** The [exec] closure of [execCustomCommands]: the callback of a command
    is the function itself or its [exec] field. *)
Definition callback_of (command : custom_command) : callback :=
  match command with
  | CmdFunction f => f
  | CmdObject exec _ => exec
  end.

(** The loop of [execCustomCommands] over the handlers of one name. *)
Fixpoint exec_all (cs : list custom_command) (args : list jsval)
    (result : jsval) : M jsval :=
  match cs with
  | [] => mret result
  | c :: cs' =>
      '(resultCurrent, _) ← run_script (callback_of c args) VUndef;
      exec_all cs' args
        (if negb (strict_eq resultCurrent VUndef) then resultCurrent
         else result)
  end.

(** [execCustomCommands(commandName, second, third)] *)
Definition execCustomCommands (commandName : string) (second third : jsval)
    : M jsval :=
  let commandName := toLowerCase commandName in
  registered ← gets (fun s => commands s !! commandName);
  match registered with
  | Some cs => exec_all cs [VStr commandName; second; third] VUndef
  | None => mret VUndef
  end.

(** Modelled from the spec: [this.selection.focus()], of the selection
    helper that is not among the sources: "focus is (re)acquired".  The
    helper exists as long as the editable region does. *)
Definition selection_focus : M unit :=
  ed ← gets editor;
  match ed with
  | Some _ => emit OFocus
  | None => throw "TypeError"
  end.

(** [try { result = this.editorDocument.execCommand(...) } catch {}] *)
Definition native_exec (command : string) (showUI value result : jsval)
    : M jsval :=
  emit (ONative command showUI value) ;;
  ed ← gets editor;
  match ed with
  | Some html =>
      match nativeExecCommand P command showUI value html with
      | Some (r, html') => modify (set_editor (Some html')) ;; mret r
      | None => mret result
      end
  | None => mret result
  end.

(** [execCommand(command, showUI = false, value = null)] *)
Definition execCommand (command : string) (showUI value : jsval) : M jsval :=
  let showUI := or_default VFalse showUI in
  let value := or_default VNull value in
  ro ← gets (fun s => readonly (options s));
  if ro && negb (String.eqb command "selectall") then mret VUndef
  else
    let command := toLowerCase command in
    result ← fire "beforeCommand" [VStr command; showUI; value];
    result ←
      (if negb (strict_eq result VFalse)
       then execCustomCommands command showUI value
       else mret result);
    result ←
      (if negb (strict_eq result VFalse)
       then
         selection_focus ;;
         if String.eqb command "selectall"
         then emit OSelectAll ;; mret result
         else native_exec command showUI value result
       else mret result);
    fire "afterCommand" [VStr command; showUI; value] ;;
    setEditorValue VUndef ;;
    mret result.

(** *** Command registry *)

(** Truthiness of [string | string[] | undefined]: the empty string and
    [undefined] are falsy, every array is truthy. *)
Definition truthy_hotkeys (h : option hotkeys) : bool :=
  match h with
  | None => false
  | Some (HkString s) => negb (String.eqb s "")
  | Some (HkArray _) => true
  end.

(** [a || b] *)
Definition hotkeys_or (a b : option hotkeys) : option hotkeys :=
  if truthy_hotkeys a then a else b.

(** Modelled from the spec: the helper [asArray] is not among the
    sources; a single hotkey stands for the array holding it. *)
Definition asArray (h : hotkeys) : list string :=
  match h with
  | HkString s => [s]
  | HkArray l => l
  end.

(** The event names [registerHotkeyToCommand] builds: each hotkey
    normalised; all of them live in the namespace [hotkey]. *)
Definition shortcuts (h : hotkeys) : list string :=
  List.map (normalizeKeyAliases P) (asArray h).

(** The handler bound to a hotkey:
    [() => { return this.execCommand(commandName); }] *)
Definition hotkey_handler (commandName : string) : callback :=
  fun _ => CallExecCommand commandName VUndef VUndef Ret.

(** Modelled from the spec: [events.off] and [events.on] are not among
    the sources.  [off('k1.ns k2.ns')] removes the subscriptions of the
    namespace [ns] to the listed events, [on] appends one subscription per
    listed event. *)
Definition events_off (keys : list string) (ns : string)
    (bus : list binding) : list binding :=
  List.filter
    (fun b => negb (existsb (String.eqb (b_event b)) keys
                    && String.eqb (b_namespace b) ns))
    bus.

Definition events_on (keys : list string) (ns : string) (h : callback)
    (bus : list binding) : list binding :=
  (bus ++ List.map (fun k => Binding k ns h) keys)%list.

(** [registerHotkeyToCommand(hotkeys, commandName)] *)
Definition registerHotkeyToCommand (h : hotkeys) (commandName : string)
    (s : state) : state :=
  let keys := shortcuts h in
  set_events
    (events_on keys "hotkey" (hotkey_handler commandName)
       (events_off keys "hotkey" (events s)))
    s.

(** [registerCommand(commandNameOriginal, command)] *)
Definition registerCommand (commandNameOriginal : string)
    (command : custom_command) (s : state) : state :=
  let commandName := toLowerCase commandNameOriginal in
  let s :=
    set_commands
      (<[commandName :=
           (default [] (commands s !! commandName) ++ [command])%list]>
         (commands s))
      s in
  match command with
  | CmdFunction _ => s
  | CmdObject _ own =>
      let chosen :=
        hotkeys_or
          (hotkeys_or (commandToHotkeys (options s) !! commandName)
                      (commandToHotkeys (options s) !! commandNameOriginal))
          own in
      match chosen with
      | Some h =>
          if truthy_hotkeys chosen then registerHotkeyToCommand h commandName s
          else s
      | None => s
      end
  end.

(** *** Lock *)

(** [lock(name = 'any')]: [super.lock(name)], which is [Panel.lock] (the
    view classes between [Jodit] and [Panel] are not among the sources and
    are taken not to override it); then the selection is saved and the
    editable region marked. *)
Definition lock (name : option string) : M bool :=
  p ← gets panel;
  let '(locked, p') := Panel.lock name p in
  if locked then
    modify (set_panel p') ;;
    ed ← gets editor;
    match ed with
    | None => throw "TypeError"
    | Some _ =>
        emit OSelectionSave ;;
        modify (set_selectionLocked true) ;;
        modify (fun s => set_view (set_editor_disabled true (view s)) s) ;;
        mret true
    end
  else mret false.

(** [unlock()] *)
Definition unlock : M bool :=
  p ← gets panel;
  let '(unlocked, p') := Panel.unlock p in
  if unlocked then
    modify (set_panel p') ;;
    ed ← gets editor;
    match ed with
    | None => throw "TypeError"
    | Some _ =>
        modify (fun s => set_view (set_editor_disabled false (view s)) s) ;;
        saved ← gets __selectionLocked;
        (if (saved : bool) then emit OSelectionRestore else mret tt) ;;
        mret true
    end
  else mret false.

(** *** Mode *)

(** [getMode] *)
Definition getMode (s : state) : Z := mode s.

(** The argument of [setMode]: [number | string]. *)
Inductive mode_arg :=
| ModeNumber (z : Z)
| ModeString (str : string).

(** [mode.toString()] *)
Definition mode_toString (m : mode_arg) : string :=
  match m with
  | ModeNumber z => number_toString z
  | ModeString str => str
  end.

(** Modelled from the spec: the helper [inArray] is not among the sources;
    the requested mode "is validated against the three legal values". *)
Definition inArray (needle : jsval) (haystack : list jsval) : bool :=
  existsb (strict_eq needle) haystack.

Definition modeClasses : list string :=
  ["jodit_wysiwyg_mode"; "jodit_source_mode"; "jodit_split_mode"].

(** [inArray(data.mode, [SOURCE, WYSIWYG, SPLIT]) ? data.mode : WYSIWYG] *)
Definition checked_mode (requested : jsval) : Z :=
  if inArray requested [VNum MODE_SOURCE; VNum MODE_WYSIWYG; VNum MODE_SPLIT]
  then match requested with VNum z => z | _ => MODE_WYSIWYG end
  else MODE_WYSIWYG.

(** [setMode(mode)] *)
Definition setMode (m : mode_arg) : M unit :=
  oldmode ← gets getMode;
  '(r, requested) ←
    fire_with_payload "beforeSetMode" (parseInt10 (mode_toString m));
  if strict_eq r VFalse then mret tt
  else
    modify (set_mode (checked_mode requested)) ;;
    save ← gets (fun s => saveModeInStorage (options s));
    (if (save : bool)
     then modify (fun s => set_stored_mode (Some (mode s)) s)
     else mret tt) ;;
    modify (fun s =>
      set_view
        (set_mode_class (modeClasses !! Z.to_nat (mode s - 1)) (view s)) s) ;;
    current ← gets getMode;
    if negb (Z.eqb oldmode current)
    then fire "afterSetMode" [] ;; mret tt
    else mret tt.

(** *** Readonly and disabled *)

(** [getReadOnly] *)
Definition getReadOnly (s : state) : bool := readonly (options s).

(** [getDisabled] *)
Definition getDisabled (s : state) : bool := disabled (options s).

(** [setReadOnly(isReadOnly)] *)
Definition setReadOnly (isReadOnly : bool) : M unit :=
  was ← gets __wasReadOnly;
  if Bool.eqb was isReadOnly then mret tt
  else
    modify (set_wasReadOnly isReadOnly) ;;
    modify (fun s => set_options (set_readonly isReadOnly (options s)) s) ;;
    modify (fun s =>
      match editor s with
      | Some _ => set_view (set_contenteditable (negb isReadOnly) (view s)) s
      | None => s
      end) ;;
    fire "readonly" [VBool isReadOnly] ;;
    mret tt.

(** [setDisabled(isDisabled)] *)
Definition setDisabled (isDisabled : bool) : M unit :=
  modify (fun s => set_options (set_disabled isDisabled (options s)) s) ;;
  readOnly ← gets __wasReadOnly;
  setReadOnly (isDisabled || readOnly) ;;
  modify (set_wasReadOnly readOnly) ;;
  ed ← gets editor;
  match ed with
  | Some _ =>
      modify (fun s =>
        set_view
          (set_container_disabled isDisabled
             (set_aria_disabled isDisabled (view s))) s) ;;
      fire "disabled" [VBool isDisabled] ;;
      mret tt
  | None => mret tt
  end.

(** One re-entrant call, dispatched to the method it names. *)
Definition step (c : call) : M jsval :=
  match c with
  | CSetEditorValue v => setEditorValue v ;; mret VUndef
  | CGetEditorValue b => getEditorValue b
  | CExecCommand c showUI value => execCommand c showUI value
  end.

End Methods.

(** Re-entrant calls nested at most [n] deep. *)
Fixpoint run (P : platform) (n : nat) (c : call) : M jsval :=
  match n with
  | O => fun _ => ([], Fuel)
  | S n' => step P (run P n') c
  end.

End Jodit.

(** ** A concrete platform and a freshly constructed instance *)

Module Sample.

Import Jodit.

(** The result policy the event bus is described with: the first value
    that is not [undefined]. *)
Definition first_defined (acc r : jsval) : jsval :=
  match acc with VUndef => r | _ => acc end.

(** A platform on which the two replacements find nothing to remove and
    the native command succeeds without touching the content. *)
Definition platform0 : platform :=
  {| fire_result := first_defined;
     normalizeKeyAliases := toLowerCase;
     replaceInvisibleSpace := fun str => str;
     replaceSelectionMarkers := fun str => str;
     nativeExecCommand := fun _ _ _ html => Some (VTrue, html) |}.

Definition config0 : Config :=
  {| readonly := false; disabled := false; saveModeInStorage := false;
     commandToHotkeys := ∅ |}.

Definition dom0 : dom :=
  {| contenteditable := true; aria_disabled := false;
     container_disabled := false; editor_disabled := false;
     mode_class := Some "jodit_wysiwyg_mode" |}.

(** An instance right after construction over an empty text area. *)
Definition instance0 : state :=
  {| element_value := ""; inline := false; editor := Some "";
     __callChangeCount := 0; options := config0; __wasReadOnly := false;
     mode := MODE_WYSIWYG; stored_mode := None; commands := ∅;
     events := []; panel := Panel.fresh; __selectionLocked := false;
     view := dom0 |}.

(** The same instance after [setReadOnly(true)]. *)
Definition readonly0 : state :=
  set_view (set_contenteditable false dom0)
    (set_options (set_readonly true config0)
       (set_wasReadOnly true instance0)).

(** An instance whose editable region and source element both hold
    [<p>old</p>], with one [beforeSetValueToEditor] handler that vetoes
    every write. *)
Definition vetoed0 : state :=
  set_events
    [Binding "beforeSetValueToEditor" "" (fun _ => Ret VFalse)]
    (set_editor (Some "<p>old</p>")
       (set_element_value "<p>old</p>" instance0)).

(** An instance configured with [commandToHotkeys: { bold: 'ctrl+b' }]. *)
Definition configured0 : state :=
  set_options
    {| readonly := false; disabled := false; saveModeInStorage := false;
       commandToHotkeys := {[ "bold" := HkString "ctrl+b" ]} |}
    instance0.

(** A handler that only returns a value. *)
Definition returning (v : jsval) : callback := fun _ => Ret v.

(** A handler that leaves a mark and returns a value. *)
Definition spy (tag : string) (v : jsval) : callback :=
  fun _ => Emit tag (Ret v).

(** A [change] handler that answers every change by setting a value
    computed from the values it was given:
    [(new_value, old_value) => editor.setEditorValue(next(...))]. *)
Definition answering (next : string -> string -> string) : callback :=
  fun args =>
    match args with
    | [VStr new_value; VStr old_value] =>
        CallSetEditorValue (VStr (next new_value old_value)) (Ret VUndef)
    | _ => Ret VUndef
    end.

(** A fresh instance whose [change] handler answers every change by
    appending a character to the new value. *)
Definition answered0 : state :=
  set_events
    [Binding "change" ""
       (answering (fun new_value _ => String.append new_value "x"))]
    instance0.

(** A fresh instance whose [change] handler answers every change by two
    calls of [setEditorValue], each with a value not seen before. *)
Definition answered_twice0 : state :=
  set_events
    [Binding "change" ""
       (fun args =>
          match args with
          | VStr new_value :: _ =>
              CallSetEditorValue (VStr (String.append new_value "x"))
                (CallSetEditorValue (VStr (String.append new_value "y"))
                   (Ret VUndef))
          | _ => Ret VUndef
          end)]
    instance0.

(** A fresh instance whose [change] handler throws. *)
Definition throwing0 : state :=
  set_events [Binding "change" "" (fun _ => Throw "boom")] instance0.

End Sample.

(** ** Vocabulary of the properties *)

Module Observe.

Import Jodit.

(** What a re-entrant call can never touch: everything but the two values
    being synchronised and the counter of nested [change] rounds. *)
Definition settings (s : state) :=
  (inline s, options s, __wasReadOnly s, mode s, stored_mode s, commands s,
   events s, panel s, __selectionLocked s, view s).

(** A computation that leaves the settings as they were, however it
    ends. *)
Definition keeps {A} (m : M A) : Prop :=
  forall s,
    match snd (m s) with
    | Ok _ s' | Exn _ s' => settings s' = settings s
    | Fuel => True
    end.

(** A postcondition that holds whenever the computation, started in
    [s], returns normally. *)
Definition ensures {A} (m : M A) (s : state) (Q : A -> state -> Prop)
    : Prop :=
  match snd (m s) with
  | Ok a s' => Q a s'
  | _ => True
  end.

(** The computation, started in [s], returns normally and the
    postcondition holds. *)
Definition returns {A} (m : M A) (s : state) (Q : A -> state -> Prop)
    : Prop :=
  match snd (m s) with
  | Ok a s' => Q a s'
  | _ => False
  end.

(** The mode a request stands for when it is one of the three legal
    values. *)
Definition legal_mode (requested : jsval) : option Z :=
  match requested with
  | VNum z =>
      if decide (z = MODE_WYSIWYG \/ z = MODE_SOURCE \/ z = MODE_SPLIT)
      then Some z else None
  | _ => None
  end.

(** No handler listens to the three events through which
    [getEditorValue] and [setEditorValue] let handlers override a value. *)
Definition quiet_values (s : state) : Prop :=
  handlers_for "beforeSetValueToEditor" s = [] /\
  handlers_for "beforeGetValueFromEditor" s = [] /\
  handlers_for "afterGetValueFromEditor" s = [].

(** What [getEditorValue] fires when no handler interferes. *)
Definition read_trace (value : string) : list obs :=
  [OFire "beforeGetValueFromEditor" [];
   OFire "afterGetValueFromEditor" [VStr value]].

(** The instance after the write of [setEditorValue] into the editable
    region, and the content of the region then. *)
Definition written (value : jsval) (html : string) : string :=
  match value with VStr v => v | _ => html end.

Definition after_write (value : jsval) (html : string) (s : state)
    : state :=
  match value with
  | VStr v => if String.eqb html v then s else set_editor (Some v) s
  | _ => s
  end.

(** The instance when [change] is about to be fired: the source element
    updated (unless it is the container), one more nested round counted. *)
Definition before_change (new_value : string) (s : state) : state :=
  set_callChangeCount (__callChangeCount s + 1)
    (if inline s then s else set_element_value new_value s).

(** Number of times [change] was fired. *)
Definition is_change (o : obs) : bool :=
  match o with
  | OFire name _ => String.eqb name "change"
  | _ => false
  end.

Definition change_fires (t : list obs) : nat :=
  List.length (List.filter is_change t).

(** Number of marks [tag] left by handlers. *)
Definition marks (tag : string) (t : list obs) : nat :=
  List.length (List.filter (fun o => bool_decide (o = OEmit tag)) t).

(** The last value that is not [undefined], [undefined] if there is
    none. *)
Definition last_defined (vs : list jsval) : jsval :=
  fold_left (fun acc v => if negb (strict_eq v VUndef) then v else acc)
            vs VUndef.

(** A handler that does nothing but return. *)
Definition returns_only (h : callback) : Prop :=
  forall args, exists v, h args = Ret v.

End Observe.

(** ** The rest of the editor class *)

Module JoditRest.

Import Jodit.

Section Rest.

Variable P : platform.
Variable rec : call -> M jsval.

(** [toggleMode()].  [useSplitMode] is [this.options.useSplitMode], an
    option the record of options does not carry. *)
Definition toggleMode (useSplitMode : bool) : M unit :=
  current ← gets getMode;
  let next :=
    if inArray (VNum (current + 1))
         [VNum MODE_SOURCE; VNum MODE_WYSIWYG;
          VNum (if useSplitMode then MODE_SPLIT else 9)]
    then (current + 1)%Z
    else MODE_WYSIWYG in
  setMode P rec (ModeNumber next).

(** [getRealMode()].  [focused] is the outcome of the test on the focus:
    [active && (Dom.isOrContains(this.editor, active) ||
    Dom.isOrContains(this.toolbar.container, active))]. *)
Definition getRealMode (focused : bool) (s : state) : Z :=
  if negb (Z.eqb (getMode s) MODE_SPLIT) then getMode s
  else if focused then MODE_WYSIWYG else MODE_SOURCE.

(** [isEditorMode()] *)
Definition isEditorMode (focused : bool) (s : state) : bool :=
  Z.eqb (getRealMode focused s) MODE_WYSIWYG.

End Rest.

End JoditRest.

(** ** Loading scripts and styles *)

Module Loader.

(** What a listener registered on an element does when its event comes:
    the [resolve] or the [reject] of a promise, [() => resolve(link)], or
    some other callback handed to [appendScript]. *)
Inductive listener :=
| Resolve (promise : nat)
| ResolveWith (promise : nat) (element : nat)
| Reject (promise : nat)
| Other (name : string).

(** An element: its tag, the properties assigned to it and its listeners
    in the order of registration. *)
Record element := Element {
  tagName : string;
  props : gmap string string;
  listeners : list (string * listener)
}.

(** The store the loaders work on: the module-level map
    [alreadyLoadedList], the promises created so far (a promise is the
    number it was created with), the elements created so far (an element
    is its index) and, for every document, the children of its body. *)
Record world := World {
  alreadyLoadedList : gmap string nat;
  promises : nat;
  elements : list element;
  bodies : gmap string (list nat)
}.

Definition set_alreadyLoadedList (m : gmap string nat) (w : world) : world :=
  {| alreadyLoadedList := m; promises := promises w;
     elements := elements w; bodies := bodies w |}.

Definition set_promises (n : nat) (w : world) : world :=
  {| alreadyLoadedList := alreadyLoadedList w; promises := n;
     elements := elements w; bodies := bodies w |}.

Definition set_elements (l : list element) (w : world) : world :=
  {| alreadyLoadedList := alreadyLoadedList w; promises := promises w;
     elements := l; bodies := bodies w |}.

Definition set_bodies (b : gmap string (list nat)) (w : world) : world :=
  {| alreadyLoadedList := alreadyLoadedList w; promises := promises w;
     elements := elements w; bodies := b |}.

(** [type Loader = (url: string, doc: Document) => Promise<any>]; the
    document may be left out. *)
Definition Loader : Type := string -> option string -> world -> nat * world.

(** [doc.createElement(tag)] *)
Definition createElement (tag : string) (w : world) : nat * world :=
  (List.length (elements w),
   set_elements (elements w ++ [Element tag ∅ []])%list w).

(** [element.name = value] *)
Definition setProp (el : nat) (name value : string) (w : world) : world :=
  set_elements
    (alter (fun e => Element (tagName e) (<[name := value]> (props e))
                       (listeners e)) el (elements w))
    w.

(** [element.addEventListener(event, listener)] *)
Definition addEventListener (el : nat) (event : string) (l : listener)
    (w : world) : world :=
  set_elements
    (alter (fun e => Element (tagName e) (props e)
                       (listeners e ++ [(event, l)])%list) el (elements w))
    w.

(** [doc.body.appendChild(element)] *)
Definition appendChild (doc : string) (el : nat) (w : world) : world :=
  set_bodies
    (<[doc := (default [] (bodies w !! doc) ++ [el])%list]> (bodies w)) w.

(** The body of a document. *)
Definition body (doc : string) (w : world) : list nat :=
  default [] (bodies w !! doc).

(** [cacheLoaders(loader)] *)
Definition cacheLoaders (loader : Loader) : Loader :=
  fun url doc w =>
    match alreadyLoadedList w !! url with
    | Some promise => (promise, w)
    | None =>
        let '(promise, w) := loader url doc w in
        (promise,
         set_alreadyLoadedList (<[url := promise]> (alreadyLoadedList w)) w)
    end.

(** [new Promise(executor)]: the executor runs at once, with the
    [resolve] and [reject] of the new promise. *)
Definition new_Promise (executor : nat -> world -> world) (w : world)
    : nat * world :=
  let promise := promises w in
  (promise, executor promise (set_promises (S promise) w)).

Section Loaders.

(** The helper [completeUrl] is not among the sources. *)
Variable completeUrl : string -> string.

(** [appendScript(url, callback, className, doc)]; the result is the
    [element] of the pair returned, its [callback] being the argument. *)
Definition appendScript (url : string) (callback : option listener)
    (className : string) (doc : string) (w : world) : nat * world :=
  let '(script, w) := createElement "script" w in
  let w := setProp script "className" className w in
  let w := setProp script "type" "text/javascript" w in
  let w :=
    match callback with
    | Some cb => addEventListener script "load" cb w
    | None => w
    end in
  let w := setProp script "src" (completeUrl url) w in
  let w := appendChild doc script w in
  (script, w).

(** The document a loader works on: [doc: Document = document]. *)
Definition document_or_default (doc : option string) : string :=
  default "document" doc.

(** [appendScriptAsync] *)
Definition appendScriptAsync : Loader :=
  cacheLoaders (fun url doc =>
    new_Promise (fun promise w =>
      let '(element, w) :=
        appendScript url (Some (Resolve promise)) ""
          (document_or_default doc) w in
      addEventListener element "error" (Reject promise) w)).

(** [appendStyleAsync] *)
Definition appendStyleAsync : Loader :=
  cacheLoaders (fun url doc =>
    new_Promise (fun promise w =>
      let '(link, w) := createElement "link" w in
      let w := setProp link "rel" "stylesheet" w in
      let w := setProp link "media" "all" w in
      let w := setProp link "crossOrigin" "anonymous" w in
      let w := addEventListener link "load" (ResolveWith promise link) w in
      let w := addEventListener link "error" (Reject promise) w in
      let w := setProp link "href" (completeUrl url) w in
      appendChild (document_or_default doc) link w)).

End Loaders.

End Loader.

(** ** Options taken from the attributes of the source element *)

Module Attributes.

(** The value an option takes from an attribute: a boolean, the number
    [Number(literal)] or the string of the attribute. *)
Inductive value :=
| Boolean (b : bool)
| Number (literal : string)
| Text (s : string).

(** [value.toString()] *)
Definition value_toString (v : value) : string :=
  match v with
  | Boolean true => "true"
  | Boolean false => "false"
  | Number literal => literal
  | Text s => s
  end.

Definition is_digit (c : ascii) : bool :=
  match digit_of c with Some _ => true | None => false end.

Fixpoint all_digits (s : string) : bool :=
  match s with
  | String c r => is_digit c && all_digits r
  | EmptyString => true
  end.

(** What may follow the first digit: more digits, then at most one dot,
    then digits to the end. *)
Fixpoint after_digit (s : string) : bool :=
  match s with
  | String c r =>
      if is_digit c then after_digit r
      else Ascii.eqb c "."%char && all_digits r
  | EmptyString => true
  end.

(** [/^[0-9]+(\.)?([0-9]+)?$/.test(s)] *)
Definition numeric (s : string) : bool :=
  match s with
  | String c r => is_digit c && after_digit r
  | EmptyString => false
  end.

(** The value the constructor computes from one attribute. *)
Definition from_attribute (name text : string) : value :=
  let v :=
    if existsb (String.eqb name) ["readonly"; "disabled"]
    then Boolean (String.eqb text "" || String.eqb text "true")
    else Text text in
  if numeric (value_toString v) then Number (value_toString v) else v.

Section Options.

(** What the options hold besides values taken from attributes. *)
Variable other : Type.

Inductive setting :=
| FromAttribute (v : value)
| Configured (o : other).

(** [Jodit.defaultOptions[name] !== undefined &&
    (!options || options[name] === undefined)]: [defaults] are the names
    the default options define, [given] the names the options passed to
    the constructor define, if options were passed. *)
Definition takes_attribute (defaults : gset string)
    (given : option (gset string)) (name : string) : bool :=
  bool_decide (name ∈ defaults) &&
  match given with
  | Some names => bool_decide (name ∉ names)
  | None => true
  end.

(** The loop of the constructor over [this.element.attributes]. *)
Definition apply_attributes (defaults : gset string)
    (given : option (gset string)) (attributes : list (string * string))
    (options : gmap string setting) : gmap string setting :=
  fold_left
    (fun options '(name, text) =>
       if takes_attribute defaults given name
       then <[name := FromAttribute (from_attribute name text)]> options
       else options)
    attributes options.

End Options.

Arguments FromAttribute {other} v.
Arguments Configured {other} o.
Arguments apply_attributes {other} defaults given attributes options.

End Attributes.

(** ** The path of an element *)

Module Selector.

(** What [getXPathByElement] reads of a node; [id] is the empty string
    when the node has none. *)
Record tag := Tag { nodeType : Z; nodeName : string; id : string }.

(** A tree of nodes. *)
#[warnings="-register-all"] Inductive node :=
| Node (t : tag) (childNodes : list node).

Definition tag_of (n : node) : tag := match n with Node t _ => t end.

Definition children (n : node) : list node :=
  match n with Node _ cs => cs end.

(** A node of the tree under [top] is known by its place: its index
    among the children of its parent, then the place of the parent.  The
    place of [top], which has no parent, is the empty list. *)
Definition place : Type := list nat.

Fixpoint node_at (top : node) (p : place) : option node :=
  match p with
  | [] => Some top
  | i :: parent =>
      match node_at top parent with
      | Some n => nth_error (children n) i
      | None => None
      end
  end.

(** [x => x.nodeName === element.nodeName] *)
Definition same_name (t : tag) (x : node) : bool :=
  String.eqb (nodeName (tag_of x)) (nodeName t).

(** [getXPathByElement(element, root)] in the tree under [top]; a place
    that names no node stands for the missing element of [!element]. *)
Fixpoint getXPathByElement (top : node) (element : place)
    (root : option place) : string :=
  match node_at top element with
  | None => ""
  | Some n =>
      let t := tag_of n in
      if negb (Z.eqb (nodeType t) 1) then ""
      else
        match element with
        | [] => ""
        | i :: parent =>
            if bool_decide (root = Some element) then ""
            else if negb (String.eqb (id t) "")
            then "//*[@id='" ++ id t ++ "']"
            else
              let siblings :=
                match node_at top parent with
                | Some p => children p
                | None => []
                end in
              let sames := List.filter (same_name t) siblings in
              getXPathByElement top parent root ++ "/" ++
              toLowerCase (nodeName t) ++
              (if (1 <? List.length sames)%nat
               then "[" ++
                    number_toString
                      (Z.of_nat
                         (List.length
                            (List.filter (same_name t) (firstn i siblings))
                          + 1)) ++
                    "]"
               else "")
        end
  end.

End Selector.

(** ** More vocabulary *)

Module Invariant.

Import Jodit.

(** The source element holds what [getEditorValue] computes from the
    editable region. *)
Definition consistent (P : platform) (s : state) : Prop :=
  exists html,
    editor s = Some html /\ element_value s = clean_value P true html.

(** A computation that ends with the counter of nested [change] rounds
    no higher than it found it. *)
Definition settles {A} (m : M A) : Prop :=
  forall s,
    match snd (m s) with
    | Ok _ s' | Exn _ s' => __callChangeCount s' <= __callChangeCount s
    | Fuel => True
    end.

(** The mode after WYSIWYG is SOURCE, the one after SOURCE is SPLIT when
    the split mode is in use, and every other step leads to WYSIWYG. *)
Definition toggled (useSplitMode : bool) (m : Z) : Z :=
  if Z.eqb m MODE_WYSIWYG then MODE_SOURCE
  else if Z.eqb m MODE_SOURCE && useSplitMode then MODE_SPLIT
  else MODE_WYSIWYG.

(** The class that goes with a mode. *)
Definition class_of_mode (m : Z) : option string :=
  if Z.eqb m MODE_WYSIWYG then Some "jodit_wysiwyg_mode"
  else if Z.eqb m MODE_SOURCE then Some "jodit_source_mode"
  else if Z.eqb m MODE_SPLIT then Some "jodit_split_mode"
  else None.

(** One of the three modes. *)
Definition is_mode (m : Z) : Prop :=
  m = MODE_WYSIWYG \/ m = MODE_SOURCE \/ m = MODE_SPLIT.

(** The mode is one of the three and the container carries its class. *)
Definition mode_coherent (s : state) : Prop :=
  is_mode (getMode s) /\
  mode_class (view s) = class_of_mode (getMode s).

(** The saved readonly flag agrees with the option, and so does the
    attribute of the editable region when there is one. *)
Definition readonly_coherent (s : state) : Prop :=
  __wasReadOnly s = getReadOnly s /\
  (editor s <> None -> contenteditable (view s) = negb (getReadOnly s)).

(** The mode kept in the storage is the current one, when the options ask
    for it to be kept. *)
Definition mode_stored (s : state) : Prop :=
  saveModeInStorage (options s) = true -> stored_mode s = Some (getMode s).

(** A request to one of the two loaders: for a script or for a style, the
    address, the document if one is given. *)
Definition request : Type := bool * string * option string.

Definition load (completeUrl : string -> string) (r : request)
    : Loader.world -> nat * Loader.world :=
  let '(script, url, doc) := r in
  if (script : bool) then Loader.appendScriptAsync completeUrl url doc
  else Loader.appendStyleAsync completeUrl url doc.

(** The store after a sequence of requests. *)
Definition load_all (completeUrl : string -> string) (rs : list request)
    (w : Loader.world) : Loader.world :=
  fold_left (fun w r => snd (load completeUrl r w)) rs w.

(** A string without the character [c]. *)
Fixpoint no_char (c : ascii) (s : string) : bool :=
  match s with
  | String a r => negb (Ascii.eqb a c) && no_char c r
  | EmptyString => true
  end.

(** Children whose names differ only by case do not occur together. *)
Definition names_apart (cs : list Selector.node) : bool :=
  forallb
    (fun a =>
       forallb
         (fun b =>
            implb
              (String.eqb
                 (toLowerCase (Selector.nodeName (Selector.tag_of a)))
                 (toLowerCase (Selector.nodeName (Selector.tag_of b))))
              (String.eqb (Selector.nodeName (Selector.tag_of a))
                          (Selector.nodeName (Selector.tag_of b))))
         cs)
    cs.

(** A tree of elements without [id], whose names hold neither [/] nor
    [[], and in which no two children of a node have names that differ
    only by case. *)
Fixpoint plain (n : Selector.node) : bool :=
  match n with
  | Selector.Node t cs =>
      Z.eqb (Selector.nodeType t) 1 &&
      String.eqb (Selector.id t) "" &&
      no_char "/" (Selector.nodeName t) &&
      no_char "[" (Selector.nodeName t) &&
      names_apart cs &&
      forallb plain cs
  end.

(** The step of a path that leads from the node [m] to its child [n] of
    index [i]. *)
Definition segment (m : Selector.node) (i : nat) (n : Selector.node)
    : string :=
  let t := Selector.tag_of n in
  toLowerCase (Selector.nodeName t) ++
  (if (1 <? List.length
              (List.filter (Selector.same_name t) (Selector.children m)))%nat
   then "[" ++
        number_toString
          (Z.of_nat
             (List.length
                (List.filter (Selector.same_name t)
                   (firstn i (Selector.children m)))
              + 1)) ++
        "]"
   else "").

End Invariant.

(** * Properties *)

Import Jodit.
Import Observe.

(** ** Computations *)

(** Unfolding the monad operations of a method. *)
Ltac run_method :=
  cbv [mbind M_bind bind mret M_ret ret gets modify emit throw finally].

(** *** Sequencing *)

Lemma bind_ok {A B} (m : M A) (k : A -> M B) s t a s1 :
  m s = (t, Ok a s1) ->
  (m ≫= k) s = (let '(t2, r) := k a s1 in ((t ++ t2)%list, r)).
Proof. intros E. cbv [mbind M_bind bind]. now rewrite E. Qed.

Lemma ret_bind {A B} (a : A) (k : A -> M B) s : (mret a ≫= k) s = k a s.
Proof.
  cbv [mbind M_bind bind mret M_ret ret]. now destruct (k a s).
Qed.

Lemma gets_bind {A B} (f : state -> A) (k : A -> M B) s :
  (gets f ≫= k) s = k (f s) s.
Proof. cbv [mbind M_bind bind gets]. now destruct (k (f s) s). Qed.

Lemma modify_bind {B} (f : state -> state) (k : unit -> M B) s :
  (modify f ≫= k) s = k tt (f s).
Proof. cbv [mbind M_bind bind modify]. now destruct (k tt (f s)). Qed.

Lemma emit_bind {B} (o : obs) (k : unit -> M B) s :
  (emit o ≫= k) s = (let '(t, r) := k tt s in (o :: t, r)).
Proof. reflexivity. Qed.

Lemma bind_ok_inv {A B} (m : M A) (k : A -> M B) s t b s' :
  (m ≫= k) s = (t, Ok b s') ->
  exists t1 a s1 t2,
    m s = (t1, Ok a s1) /\ k a s1 = (t2, Ok b s') /\ t = (t1 ++ t2)%list.
Proof.
  cbv [mbind M_bind bind].
  destruct (m s) as [t1 [a s1|msg s1|]]; try discriminate.
  destruct (k a s1) as [t2 r] eqn:E. intros H. injection H as <- ->.
  now exists t1, a, s1, t2.
Qed.

(** *** What no call into the instance touches *)

Lemma keeps_ret {A} (a : A) : keeps (mret a).
Proof. now intros s. Qed.

Lemma keeps_throw {A} msg : keeps (@throw A msg).
Proof. now intros s. Qed.

Lemma keeps_emit o : keeps (emit o).
Proof. now intros s. Qed.

Lemma keeps_gets {A} (f : state -> A) : keeps (gets f).
Proof. now intros s. Qed.

Lemma keeps_modify f :
  (forall s, settings (f s) = settings s) -> keeps (modify f).
Proof. intros H s. apply H. Qed.

Lemma keeps_bind {A B} (m : M A) (k : A -> M B) :
  keeps m -> (forall a, keeps (k a)) -> keeps (m ≫= k).
Proof.
  intros Hm Hk s. specialize (Hm s). cbv [mbind M_bind bind].
  destruct (m s) as [t [a s1|msg s1|]]; cbn in *; trivial.
  specialize (Hk a s1). destruct (k a s1) as [t2 [b s2|msg s2|]];
    cbn in *; trivial; congruence.
Qed.

Lemma keeps_finally {A} (m : M A) fin :
  keeps m -> (forall s, settings (fin s) = settings s) ->
  keeps (finally m fin).
Proof.
  intros Hm Hf s. specialize (Hm s). unfold finally.
  destruct (m s) as [t [a s1|msg s1|]]; cbn in *; trivial;
    rewrite Hf; exact Hm.
Qed.

(** A database for the frame lemmas of the methods. *)
Create HintDb frame discriminated.

(** One step of a frame proof: use a frame lemma already proved, close a
    leaf, split a sequence, or branch on the scrutinee of a conditional. *)
Ltac keeps_step :=
  first
    [ solve [auto 1 with frame nocore]
    | apply keeps_ret | apply keeps_throw | apply keeps_emit
    | apply keeps_gets
    | apply keeps_modify; intros ?; reflexivity
    | apply keeps_finally; [|intros ?; reflexivity]
    | apply keeps_bind; [|intros ?]
    | match goal with
      | |- keeps (let '(_, _) := ?x in _) => destruct x
      | |- keeps (if ?b then _ else _) => destruct b
      | |- keeps (match ?x with _ => _ end) => destruct x
      end ].

Section Frame.

Variable P : platform.
Variable rec : call -> M jsval.
Hypothesis rec_keeps : forall c, keeps (rec c).

#[local] Hint Resolve rec_keeps : frame.

Lemma run_script_keeps sc payload : keeps (run_script rec sc payload).
Proof.
  revert payload. induction sc; intros payload; cbn [run_script];
    repeat keeps_step.
Qed.

#[local] Hint Resolve run_script_keeps : frame.

Lemma run_handlers_keeps hs mkargs payload result :
  keeps (run_handlers P rec hs mkargs payload result).
Proof.
  revert payload result. induction hs as [|h hs IH]; intros payload result;
    cbn [run_handlers]; repeat keeps_step.
Qed.

#[local] Hint Resolve run_handlers_keeps : frame.

Lemma fire_keeps name args : keeps (fire P rec name args).
Proof. unfold fire. repeat keeps_step. Qed.

Lemma fire_with_payload_keeps name payload :
  keeps (fire_with_payload P rec name payload).
Proof. unfold fire_with_payload. repeat keeps_step. Qed.

#[local] Hint Resolve fire_keeps fire_with_payload_keeps : frame.

Lemma getEditorValue_keeps b : keeps (getEditorValue P rec b).
Proof. unfold getEditorValue. repeat keeps_step. Qed.

#[local] Hint Resolve getEditorValue_keeps : frame.

Lemma setElementValue_keeps v : keeps (setElementValue P rec v).
Proof. unfold setElementValue. repeat keeps_step. Qed.

#[local] Hint Resolve setElementValue_keeps : frame.

Lemma setNativeEditorValue_settings v s :
  settings (setNativeEditorValue v s) = settings s.
Proof. unfold setNativeEditorValue. now destruct (editor s). Qed.

Lemma setEditorValue_keeps v : keeps (setEditorValue P rec v).
Proof.
  unfold setEditorValue.
  repeat first
    [ apply keeps_modify; apply setNativeEditorValue_settings
    | keeps_step ].
Qed.

#[local] Hint Resolve setEditorValue_keeps : frame.

Lemma exec_all_keeps cs args result : keeps (exec_all rec cs args result).
Proof.
  revert result. induction cs as [|c cs IH]; intros result; cbn [exec_all];
    repeat keeps_step.
Qed.

#[local] Hint Resolve exec_all_keeps : frame.

Lemma execCustomCommands_keeps c second third :
  keeps (execCustomCommands rec c second third).
Proof. unfold execCustomCommands. repeat keeps_step. Qed.

#[local] Hint Resolve execCustomCommands_keeps : frame.

Lemma execCommand_keeps c showUI value :
  keeps (execCommand P rec c showUI value).
Proof.
  unfold execCommand, selection_focus, native_exec. repeat keeps_step.
Qed.

#[local] Hint Resolve execCommand_keeps : frame.

Lemma step_keeps c : keeps (step P rec c).
Proof. destruct c; cbn [step]; repeat keeps_step. Qed.

End Frame.

(** Whatever the handlers do, a call into the instance leaves the
    settings alone. *)
Lemma run_keeps P n c : keeps (run P n c).
Proof.
  revert c. induction n as [|n IH]; intros c; cbn [run].
  - now intros s.
  - now apply step_keeps.
Qed.

(** The equalities packed in an equation between settings. *)
Ltac settings_inv H :=
  unfold settings in H; cbn in H; injection H as ?;
  repeat match goal with E : _ = _ |- _ => progress cbn in E end.

(** Closing a goal about one field from such equalities. *)
Ltac by_fields :=
  repeat split;
  first
    [ congruence
    | match goal with E : options _ = _ |- _ => now rewrite E end ].

(** *** Postconditions of normal returns *)

Lemma ensures_ret {A} (a : A) s (Q : A -> state -> Prop) :
  Q a s -> ensures (mret a) s Q.
Proof. intros H. exact H. Qed.

Lemma ensures_gets {A} (f : state -> A) s (Q : A -> state -> Prop) :
  Q (f s) s -> ensures (gets f) s Q.
Proof. intros H. exact H. Qed.

Lemma ensures_modify f s (Q : unit -> state -> Prop) :
  Q tt (f s) -> ensures (modify f) s Q.
Proof. intros H. exact H. Qed.

Lemma ensures_bind {A B} (m : M A) (k : A -> M B) s
    (Q : B -> state -> Prop) :
  ensures m s (fun a s1 => ensures (k a) s1 Q) -> ensures (m ≫= k) s Q.
Proof.
  unfold ensures. cbv [mbind M_bind bind].
  destruct (m s) as [t [a s1|msg s1|]]; cbn; trivial.
  now destruct (k a s1) as [t2 r].
Qed.

Lemma ensures_bind_ok {A B} (m : M A) (k : A -> M B) s t a s1
    (Q : B -> state -> Prop) :
  m s = (t, Ok a s1) -> ensures (k a) s1 Q -> ensures (m ≫= k) s Q.
Proof.
  intros E H. apply ensures_bind. unfold ensures at 1. now rewrite E.
Qed.

Lemma ensures_keeps {A} (m : M A) s (Q : A -> state -> Prop) :
  keeps m ->
  (forall a s', settings s' = settings s -> Q a s') ->
  ensures m s Q.
Proof.
  intros Hk HQ. unfold ensures. specialize (Hk s).
  destruct (m s) as [t [a s1|msg s1|]]; cbn in *; auto.
Qed.

Lemma ensures_mono {A} (m : M A) s (Q Q' : A -> state -> Prop) :
  ensures m s Q -> (forall a s', Q a s' -> Q' a s') -> ensures m s Q'.
Proof.
  unfold ensures. destruct (m s) as [t [a s1|msg s1|]]; cbn; auto.
Qed.

Lemma ensures_ok {A} (m : M A) s (Q : A -> state -> Prop) t a s' :
  ensures m s Q -> m s = (t, Ok a s') -> Q a s'.
Proof. unfold ensures. intros H E. now rewrite E in H. Qed.

(** *** Normal termination *)

Lemma returns_ret {A} (a : A) s (Q : A -> state -> Prop) :
  Q a s -> returns (mret a) s Q.
Proof. intros H. exact H. Qed.

Lemma returns_gets {A} (f : state -> A) s (Q : A -> state -> Prop) :
  Q (f s) s -> returns (gets f) s Q.
Proof. intros H. exact H. Qed.

Lemma returns_modify f s (Q : unit -> state -> Prop) :
  Q tt (f s) -> returns (modify f) s Q.
Proof. intros H. exact H. Qed.

Lemma returns_bind {A B} (m : M A) (k : A -> M B) s
    (Q : B -> state -> Prop) :
  returns m s (fun a s1 => returns (k a) s1 Q) -> returns (m ≫= k) s Q.
Proof.
  unfold returns. cbv [mbind M_bind bind].
  destruct (m s) as [t [a s1|msg s1|]]; cbn; trivial.
  now destruct (k a s1) as [t2 r].
Qed.

Lemma returns_bind_ok {A B} (m : M A) (k : A -> M B) s t a s1
    (Q : B -> state -> Prop) :
  m s = (t, Ok a s1) -> returns (k a) s1 Q -> returns (m ≫= k) s Q.
Proof.
  intros E H. apply returns_bind. unfold returns at 1. now rewrite E.
Qed.

Lemma returns_mono {A} (m : M A) s (Q Q' : A -> state -> Prop) :
  returns m s Q -> (forall a s', Q a s' -> Q' a s') -> returns m s Q'.
Proof.
  unfold returns. destruct (m s) as [t [a s1|msg s1|]]; cbn; auto.
Qed.

Lemma returns_ok {A} (m : M A) s (Q : A -> state -> Prop) :
  returns m s Q -> exists t a s', m s = (t, Ok a s') /\ Q a s'.
Proof.
  unfold returns. destruct (m s) as [t [a s1|msg s1|]]; cbn; try easy.
  intros H. now exists t, a, s1.
Qed.

(** *** Rounds of the event bus *)

Lemma handlers_for_empty name s : events s = [] -> handlers_for name s = [].
Proof. unfold handlers_for. now intros ->. Qed.

Lemma fire_quiet P rec name args s :
  handlers_for name s = [] ->
  fire P rec name args s = ([OFire name args], Ok VUndef s).
Proof. intros H. unfold fire. run_method. now rewrite H. Qed.

Lemma fire_with_payload_quiet P rec name payload s :
  handlers_for name s = [] ->
  fire_with_payload P rec name payload s =
    ([OFire name [payload]], Ok (VUndef, payload) s).
Proof. intros H. unfold fire_with_payload. run_method. now rewrite H. Qed.

Lemma returns_fire_quiet P rec name args s (Q : jsval -> state -> Prop) :
  handlers_for name s = [] -> Q VUndef s -> returns (fire P rec name args) s Q.
Proof. intros H HQ. unfold returns. now rewrite fire_quiet. Qed.

Lemma fire_head P rec name args s :
  exists t r, fire P rec name args s = (OFire name args :: t, r).
Proof.
  unfold fire. rewrite emit_bind.
  match goal with |- context [let '(_, _) := ?m in _] => destruct m as [t r] end.
  now exists t, r.
Qed.

Lemma run_handlers_returns_only P rec hs mkargs payload result s :
  Forall returns_only hs ->
  exists r,
    run_handlers P rec hs mkargs payload result s = ([], Ok (r, payload) s).
Proof.
  intros H. revert result.
  induction H as [|h hs Hh _ IH]; intros result; cbn [run_handlers].
  - now exists result.
  - destruct (Hh (mkargs payload)) as [v Ev]. rewrite Ev. cbn [run_script].
    rewrite ret_bind. apply IH.
Qed.

Lemma fire_returns_only P rec name args s :
  Forall returns_only (handlers_for name s) ->
  exists r, fire P rec name args s = ([OFire name args], Ok r s).
Proof.
  intros H. unfold fire. rewrite emit_bind, gets_bind.
  destruct (run_handlers_returns_only P rec _ (fun _ => args) VUndef VUndef
              s H) as [r Er].
  rewrite (bind_ok _ _ _ _ _ _ Er). now exists r.
Qed.

(** *** Values and names *)

Lemma strict_eq_str (a b : string) :
  strict_eq (VStr a) (VStr b) = String.eqb a b.
Proof.
  cbn. destruct (String.eqb_spec a b) as [->|Hne].
  - now apply bool_decide_eq_true_2.
  - apply bool_decide_eq_false_2. congruence.
Qed.

Lemma strict_eq_false_r (r : jsval) :
  r <> VFalse -> strict_eq r VFalse = false.
Proof.
  intros H. destruct r; try reflexivity.
  cbn. now apply bool_decide_eq_false_2.
Qed.

Lemma lower_ascii_idem (c : ascii) :
  lower_ascii (lower_ascii c) = lower_ascii c.
Proof. destruct c as [[] [] [] [] [] [] [] []]; reflexivity. Qed.

Lemma toLowerCase_idem (str : string) :
  toLowerCase (toLowerCase str) = toLowerCase str.
Proof.
  induction str as [|c str IH]; cbn [toLowerCase]; [reflexivity|].
  now rewrite lower_ascii_idem, IH.
Qed.

(** ** Lock protocol *)

Lemma isLocked_holder (p : Panel.t) :
  Panel.isLocked p = false <-> Panel.holder p = None.
Proof. unfold Panel.holder. destruct (Panel.isLocked p); split; congruence. Qed.

Lemma panel_lock_free (p : Panel.t) (a : string) :
  Panel.holder p = None ->
  Panel.lock (Some a) p =
    (true, Panel.Make a (Panel.__isFullSize p) (Panel.isDestructed p)
                        (Panel.container p)).
Proof.
  intros H. apply isLocked_holder in H. unfold Panel.lock. now rewrite H.
Qed.

Lemma panel_lock_held (p : Panel.t) (b : option string) :
  Panel.holder p <> None -> Panel.lock b p = (false, p).
Proof.
  unfold Panel.holder, Panel.lock. destruct (Panel.isLocked p); [reflexivity|].
  intros H. now elim H.
Qed.

Lemma panel_unlock_held (p : Panel.t) :
  Panel.holder p <> None ->
  Panel.unlock p =
    (true, Panel.Make "" (Panel.__isFullSize p) (Panel.isDestructed p)
                         (Panel.container p)).
Proof.
  unfold Panel.holder, Panel.unlock. destruct (Panel.isLocked p); [reflexivity|].
  intros H. now elim H.
Qed.

Lemma panel_unlock_free (p : Panel.t) :
  Panel.holder p = None -> Panel.unlock p = (false, p).
Proof.
  intros H. apply isLocked_holder in H. unfold Panel.unlock. now rewrite H.
Qed.

Lemma jodit_lock_free (s : state) (a html : string) :
  editor s = Some html ->
  Panel.holder (panel s) = None ->
  exists s',
    lock (Some a) s = ([OSelectionSave], Ok true s') /\
    Panel.holder (panel s') = (if String.eqb a "" then None else Some a) /\
    Panel.__whoLocked (panel s') = a.
Proof.
  intros He Hh. unfold lock. run_method.
  rewrite (panel_lock_free _ a Hh). cbn. rewrite He. cbn.
  eexists. split; [reflexivity|]. cbn. split; [|reflexivity].
  unfold Panel.holder, Panel.isLocked. cbn. now destruct (String.eqb a "").
Qed.

Lemma jodit_lock_held (s : state) (b : option string) :
  Panel.holder (panel s) <> None -> lock b s = ([], Ok false s).
Proof.
  intros Hh. unfold lock. run_method.
  now rewrite (panel_lock_held _ b Hh).
Qed.

Lemma jodit_unlock_held (s : state) (html : string) :
  editor s = Some html ->
  Panel.holder (panel s) <> None ->
  exists s',
    unlock s =
      ((if __selectionLocked s then [OSelectionRestore] else []), Ok true s') /\
    Panel.holder (panel s') = None.
Proof.
  intros He Hh. unfold unlock. run_method.
  rewrite (panel_unlock_held _ Hh). cbn. rewrite He. cbn.
  destruct (__selectionLocked s); cbn; eexists; (split; [reflexivity|]);
    reflexivity.
Qed.

Lemma jodit_unlock_free (s : state) :
  Panel.holder (panel s) = None -> unlock s = ([], Ok false s).
Proof.
  intros Hh. unfold unlock. run_method.
  now rewrite (panel_unlock_free _ Hh).
Qed.

(** C8.  Lock protocol of a lockable component, for the base class
    ([Panel.lock], [Panel.unlock]) and for the editor, whose methods wrap
    the ones of the base class.  On an unlocked component [lock(a)]
    returns true and records [a] as the holder; on a locked one [lock(b)]
    returns false and changes nothing; [unlock()] returns true and clears
    the holder when locked, and returns false when unlocked.  The holder
    is one cell that a refused [lock] never overwrites, so there is at
    most one holder at any time. *)
Theorem lock_protocol (p : Panel.t) (s : state) (a b html : string) :
  editor s = Some html ->
  (Panel.holder p = None ->
     fst (Panel.lock (Some a) p) = true /\
     Panel.__whoLocked (snd (Panel.lock (Some a) p)) = a) /\
  (Panel.holder p <> None -> Panel.lock (Some b) p = (false, p)) /\
  (Panel.holder p <> None ->
     fst (Panel.unlock p) = true /\
     Panel.holder (snd (Panel.unlock p)) = None) /\
  (Panel.holder p = None -> Panel.unlock p = (false, p)) /\
  (Panel.holder (panel s) = None ->
     exists s', lock (Some a) s = ([OSelectionSave], Ok true s') /\
                Panel.__whoLocked (panel s') = a) /\
  (Panel.holder (panel s) <> None -> lock (Some b) s = ([], Ok false s)) /\
  (Panel.holder (panel s) <> None ->
     exists t s', unlock s = (t, Ok true s') /\
                  Panel.holder (panel s') = None) /\
  (Panel.holder (panel s) = None -> unlock s = ([], Ok false s)).
Proof.
  intros He.
  split; [intros H; now rewrite (panel_lock_free _ a H)|].
  split; [now apply panel_lock_held|].
  split; [intros H; now rewrite (panel_unlock_held _ H)|].
  split; [now apply panel_unlock_free|].
  split.
  { intros Hh. destruct (jodit_lock_free s a html He Hh) as (s' & E & _ & W).
    now exists s'. }
  split; [now apply jodit_lock_held|].
  split; [|now apply jodit_unlock_free].
  intros Hh. destruct (jodit_unlock_held s html He Hh) as (s' & E & W).
  eauto.
Qed.

(** The scenario of the specification: [lock("a")] succeeds, [lock("b")]
    is refused while the lock is held, and after [unlock()] the call
    [lock("b")] succeeds. *)
Lemma lock_protocol_witness :
  let p1 := snd (Panel.lock (Some "a") Panel.fresh) in
  let p2 := snd (Panel.unlock p1) in
  fst (Panel.lock (Some "a") Panel.fresh) = true /\
  Panel.lock (Some "b") p1 = (false, p1) /\
  fst (Panel.unlock p1) = true /\
  fst (Panel.lock (Some "b") p2) = true /\
  Panel.__whoLocked (snd (Panel.lock (Some "b") p2)) = "b" /\
  Panel.unlock p2 = (false, p2).
Proof.
  intros p1 p2.
  destruct (lock_protocol Panel.fresh Sample.instance0 "a" "b" "" eq_refl)
    as (L0 & _).
  destruct (lock_protocol p1 Sample.instance0 "a" "b" "" eq_refl)
    as (_ & L1 & U1 & _).
  destruct (lock_protocol p2 Sample.instance0 "b" "b" "" eq_refl)
    as (L2 & _ & _ & U2 & _).
  split; [now apply L0|].
  split; [now apply L1|].
  split; [now apply U1|].
  split; [now apply L2|].
  split; [now apply L2|].
  now apply U2.
Defined.

(** ** Destruction of a panel *)

(** C10.  [Panel.destruct] on a live panel returns at once and changes
    nothing, the container included, because the guard reads
    [if (!this.isDestructed) return;]; the teardown (container removed,
    base destructor run) happens only for a panel already marked
    destructed. *)
Theorem panel_destruct_guard (p : Panel.t) :
  (Panel.isDestructed p = false -> Panel.destruct p = p) /\
  (Panel.isDestructed p = true ->
     Panel.destruct p =
       Panel.Make (Panel.__whoLocked p) (Panel.__isFullSize p) true false) /\
  (Panel.destruct p <> p -> Panel.isDestructed p = true).
Proof.
  unfold Panel.destruct, Panel.component_destruct.
  destruct p as [who full [|] box]; cbn; (split; [|split]);
    intros H; congruence.
Qed.

Lemma panel_destruct_guard_witness :
  Panel.destruct Panel.fresh = Panel.fresh /\
  Panel.container (Panel.destruct Panel.fresh) = true /\
  Panel.container
    (Panel.destruct (Panel.component_destruct Panel.fresh)) = false.
Proof.
  destruct (panel_destruct_guard Panel.fresh) as (Live & _).
  destruct (panel_destruct_guard (Panel.component_destruct Panel.fresh))
    as (_ & Dead & _).
  rewrite (Live eq_refl), (Dead eq_refl). repeat split.
Defined.

(** ** Readonly and disabled *)

(** [setReadOnly] returns at once when the saved flag already has the
    requested value. *)
Lemma setReadOnly_same P rec b s :
  __wasReadOnly s = b -> setReadOnly P rec b s = ([], Ok tt s).
Proof.
  intros H. unfold setReadOnly. run_method. rewrite H.
  now rewrite Bool.eqb_reflx.
Qed.

Lemma setReadOnly_ensures P rec b s :
  (forall c, keeps (rec c)) ->
  ensures (setReadOnly P rec b) s (fun _ s' =>
    __wasReadOnly s' = b /\
    disabled (options s') = disabled (options s) /\
    events s' = events s /\
    readonly (options s') =
      (if Bool.eqb (__wasReadOnly s) b then readonly (options s) else b)).
Proof.
  intros Hrec. unfold setReadOnly.
  apply ensures_bind, ensures_gets.
  destruct (Bool.eqb (__wasReadOnly s) b) eqn:E.
  - apply ensures_ret. apply Bool.eqb_prop in E. auto.
  - do 3 (apply ensures_bind, ensures_modify).
    apply ensures_bind, ensures_keeps; [now apply fire_keeps|].
    intros a s' H. apply ensures_ret.
    destruct (editor _); settings_inv H; by_fields.
Qed.

Lemma setDisabled_ensures P rec b s :
  (forall c, keeps (rec c)) ->
  ensures (setDisabled P rec b) s (fun _ s' =>
    __wasReadOnly s' = __wasReadOnly s /\
    disabled (options s') = b /\
    events s' = events s /\
    readonly (options s') =
      (if Bool.eqb (__wasReadOnly s) (b || __wasReadOnly s)
       then readonly (options s) else b || __wasReadOnly s)).
Proof.
  intros Hrec. unfold setDisabled.
  apply ensures_bind, ensures_modify.
  apply ensures_bind, ensures_gets.
  apply ensures_bind.
  eapply ensures_mono; [now apply setReadOnly_ensures|].
  intros [] s1 (W & D & Ev & R). cbn in W, D, Ev, R.
  apply ensures_bind, ensures_modify.
  apply ensures_bind, ensures_gets. cbn [editor set_wasReadOnly].
  destruct (editor s1) eqn:Ed.
  - apply ensures_bind, ensures_modify.
    apply ensures_bind, ensures_keeps; [now apply fire_keeps|].
    intros a s2 K. apply ensures_ret. settings_inv K. by_fields.
  - apply ensures_ret. cbn. by_fields.
Qed.

Lemma setReadOnly_returns P rec b s :
  handlers_for "readonly" s = [] ->
  returns (setReadOnly P rec b) s (fun _ s' => events s' = events s).
Proof.
  intros Hr. unfold setReadOnly.
  apply returns_bind, returns_gets.
  destruct (Bool.eqb (__wasReadOnly s) b).
  - now apply returns_ret.
  - do 3 (apply returns_bind, returns_modify).
    apply returns_bind, returns_fire_quiet.
    + unfold handlers_for in *. now destruct (editor _).
    + apply returns_ret. now destruct (editor _).
Qed.

Lemma setDisabled_returns P rec b s :
  handlers_for "readonly" s = [] ->
  handlers_for "disabled" s = [] ->
  returns (setDisabled P rec b) s (fun _ s' => events s' = events s).
Proof.
  intros Hr Hd. unfold setDisabled.
  apply returns_bind, returns_modify.
  apply returns_bind, returns_gets.
  apply returns_bind.
  eapply returns_mono; [now apply setReadOnly_returns|].
  intros [] s1 Ev. cbn in Ev.
  apply returns_bind, returns_modify.
  apply returns_bind, returns_gets. cbn [editor set_wasReadOnly].
  destruct (editor s1).
  - apply returns_bind, returns_modify.
    apply returns_bind, returns_fire_quiet.
    + unfold handlers_for in *. cbn. now rewrite Ev.
    + now apply returns_ret.
  - now apply returns_ret.
Qed.

(** C9.  On an instance that is neither readonly nor disabled,
    [setDisabled(true)] followed by [setDisabled(false)] ends with
    [getDisabled()] false and [getReadOnly()] true: disabling forces the
    readonly option through [setReadOnly(true)] and then restores the
    saved flag [__wasReadOnly] to false, so on re-enabling
    [setReadOnly(false)] finds the saved flag equal to its argument and
    returns before touching the option.  This holds whatever the
    [readonly] and [disabled] handlers do when both calls return, and both
    calls do return when these events have no handler. *)
Theorem disable_enable_leaves_readonly (P : platform) (n : nat)
    (s : state) :
  getReadOnly s = false ->
  getDisabled s = false ->
  __wasReadOnly s = false ->
  (forall t1 s1 t2 s2,
     setDisabled P (run P n) true s = (t1, Ok tt s1) ->
     setDisabled P (run P n) false s1 = (t2, Ok tt s2) ->
     getDisabled s1 = true /\ getReadOnly s1 = true /\
     __wasReadOnly s1 = false /\
     setReadOnly P (run P n) false
       (set_options (Jodit.set_disabled false (options s1)) s1) =
       ([], Ok tt (set_options (Jodit.set_disabled false (options s1)) s1)) /\
     getDisabled s2 = false /\ getReadOnly s2 = true) /\
  (handlers_for "readonly" s = [] ->
   handlers_for "disabled" s = [] ->
   exists t1 s1 t2 s2,
     setDisabled P (run P n) true s = (t1, Ok tt s1) /\
     setDisabled P (run P n) false s1 = (t2, Ok tt s2)).
Proof.
  unfold getReadOnly, getDisabled. intros Hro Hdis Hwas.
  pose proof (run_keeps P n) as Hrec.
  split.
  - intros t1 s1 t2 s2 E1 E2.
    pose proof (ensures_ok _ _ _ _ _ _
                  (setDisabled_ensures P _ true s Hrec) E1)
      as (W1 & D1 & _ & R1).
    rewrite Hwas in W1, R1. cbn in R1.
    pose proof (ensures_ok _ _ _ _ _ _
                  (setDisabled_ensures P _ false s1 Hrec) E2)
      as (W2 & D2 & _ & R2).
    rewrite W1 in R2. cbn in R2.
    repeat split; try congruence.
    now apply setReadOnly_same.
  - intros Hr Hd.
    destruct (returns_ok _ _ _ (setDisabled_returns P (run P n) true s Hr Hd))
      as (t1 & [] & s1 & E1 & Ev).
    assert (Hr1 : handlers_for "readonly" s1 = [])
      by (unfold handlers_for in *; now rewrite Ev).
    assert (Hd1 : handlers_for "disabled" s1 = [])
      by (unfold handlers_for in *; now rewrite Ev).
    destruct (returns_ok _ _ _
                (setDisabled_returns P (run P n) false s1 Hr1 Hd1))
      as (t2 & [] & s2 & E2 & _).
    now exists t1, s1, t2, s2.
Qed.

Lemma disable_enable_leaves_readonly_witness :
  exists t s',
    (setDisabled Sample.platform0 (run Sample.platform0 0) true ;;
     setDisabled Sample.platform0 (run Sample.platform0 0) false)
      Sample.instance0 = (t, Ok tt s') /\
    getDisabled s' = false /\ getReadOnly s' = true.
Proof.
  destruct (disable_enable_leaves_readonly Sample.platform0 0
              Sample.instance0 eq_refl eq_refl eq_refl) as (Flags & Total).
  destruct (Total eq_refl eq_refl) as (t1 & s1 & t2 & s2 & E1 & E2).
  destruct (Flags t1 s1 t2 s2 E1 E2) as (_ & _ & _ & _ & D & R).
  exists (t1 ++ t2)%list, s2. split; [|now split].
  rewrite (bind_ok _ _ _ _ _ _ E1). now rewrite E2.
Defined.

(** ** Command dispatch *)

(** C2.  The readonly guard of [execCommand] compares the name as it was
    passed, before [toLowerCase]: on a readonly instance every name other
    than the exact string [selectall] returns at once, with nothing fired
    and nothing changed.  That includes the other spellings of the
    reserved name, such as [SelectAll] and [SELECTALL]. *)
Theorem readonly_guard_compares_raw_name (P : platform)
    (rec : call -> M jsval) (s : state) (c : string) (showUI value : jsval) :
  getReadOnly s = true ->
  c <> "selectall" ->
  execCommand P rec c showUI value s = ([], Ok VUndef s).
Proof.
  unfold getReadOnly. intros Hro Hc. unfold execCommand. run_method.
  rewrite Hro. apply String.eqb_neq in Hc. now rewrite Hc.
Qed.

Lemma readonly_guard_compares_raw_name_witness :
  let P := Sample.platform0 in
  let s := Sample.readonly0 in
  execCommand P (run P 0) "SelectAll" VUndef VUndef s = ([], Ok VUndef s) /\
  execCommand P (run P 0) "SELECTALL" VUndef VUndef s = ([], Ok VUndef s) /\
  In OSelectAll (fst (execCommand P (run P 0) "selectall" VUndef VUndef s)).
Proof.
  intros P s. split; [|split].
  - apply (readonly_guard_compares_raw_name P (run P 0) s "SelectAll");
      [reflexivity | discriminate].
  - apply (readonly_guard_compares_raw_name P (run P 0) s "SELECTALL");
      [reflexivity | discriminate].
  - vm_compute. auto.
Defined.



(** ** Synchronisation: the veto *)



(** ** Synchronisation when no handler overrides a value *)

Lemma getEditorValue_quiet P rec b s :
  handlers_for "beforeGetValueFromEditor" s = [] ->
  handlers_for "afterGetValueFromEditor" s = [] ->
  let value := clean_value P b (getNativeEditorValue s) in
  getEditorValue P rec b s = (read_trace value, Ok (VStr value) s).
Proof.
  intros Hb Ha value. unfold getEditorValue.
  rewrite (bind_ok _ _ _ _ _ _ (fire_quiet P rec _ [] s Hb)).
  change (strict_eq VUndef VUndef) with true. cbn [negb].
  rewrite gets_bind. fold value.
  rewrite (bind_ok _ _ _ _ _ _
             (fire_with_payload_quiet P rec _ (VStr value) s Ha)).
  reflexivity.
Qed.

(** [setElementValue(new_value)] as [setEditorValue] calls it: the source
    element is written, the value read back is the one just written, so
    the editor is not set again. *)
Lemma setElementValue_quiet P rec s html :
  quiet_values s ->
  editor s = Some html ->
  let new_value := clean_value P true html in
  setElementValue P rec (VStr new_value) s =
    (read_trace new_value,
     Ok tt (if inline s then s else set_element_value new_value s)).
Proof.
  intros (_ & Hb & Ha) He new_value. unfold setElementValue.
  cbn [not_string_nor_undefined]. cbn beta iota.
  set (s1 := if inline s then s else set_element_value new_value s).
  assert (E1 : (gets inline ≫= (fun isContainer : bool =>
                  (if negb isContainer
                   then modify (set_element_value new_value)
                   else mret tt) ≫= (fun _ => mret (VStr new_value)))) s =
               ([], Ok (VStr new_value) s1))
    by (subst s1; rewrite gets_bind; now destruct (inline s)).
  rewrite (bind_ok _ _ _ _ _ _ E1).
  assert (Hs1 : events s1 = events s /\ editor s1 = Some html)
    by (subst s1; now destruct (inline s)).
  destruct Hs1 as (Ev1 & Ed1).
  assert (Hb1 : handlers_for "beforeGetValueFromEditor" s1 = [])
    by (unfold handlers_for in *; now rewrite Ev1).
  assert (Ha1 : handlers_for "afterGetValueFromEditor" s1 = [])
    by (unfold handlers_for in *; now rewrite Ev1).
  rewrite (bind_ok _ _ _ _ _ _ (getEditorValue_quiet P rec true s1 Hb1 Ha1)).
  unfold getNativeEditorValue. rewrite Ed1. fold new_value.
  rewrite strict_eq_str, String.eqb_refl. reflexivity.
Qed.

Lemma after_write_fields value html s :
  editor s = Some html ->
  not_string_nor_undefined value = false ->
  let s1 := after_write value html s in
  editor s1 = Some (written value html) /\
  events s1 = events s /\
  element_value s1 = element_value s /\
  inline s1 = inline s /\
  __callChangeCount s1 = __callChangeCount s.
Proof.
  intros He Hv. unfold after_write, written.
  destruct value; try discriminate; cbn; auto.
  destruct (String.eqb_spec html s0) as [<-|Hne]; cbn; auto.
Qed.

Lemma quiet_values_events s s' :
  events s' = events s -> quiet_values s -> quiet_values s'.
Proof. unfold quiet_values, handlers_for. now intros ->. Qed.

(** [setEditorValue] when no handler overrides a value: [change] is fired
    exactly when the value of the source element differs from the value
    read back from the editor and the counter is below the threshold; the
    source element is updated and the counter incremented before the
    handlers run, and the counter is zero once they have returned or
    thrown. *)
Lemma setEditorValue_quiet P rec value s html :
  quiet_values s ->
  editor s = Some html ->
  not_string_nor_undefined value = false ->
  let s1 := after_write value html s in
  let old_value := element_value s in
  let new_value := clean_value P true (written value html) in
  let pre := OFire "beforeSetValueToEditor" [value] :: read_trace new_value in
  setEditorValue P rec value s =
    if negb (String.eqb old_value new_value)
       && (__callChangeCount s <? SAFE_COUNT_CHANGE_CALL)%nat
    then
      let '(t, r) :=
        (finally (fire P rec "change" [VStr new_value; VStr old_value])
                 (set_callChangeCount 0) ;;
         mret tt) (before_change new_value s1) in
      ((pre ++ read_trace new_value ++ t)%list, r)
    else (pre, Ok tt s1).
Proof.
  intros Hq He Hv s1 old_value new_value pre.
  destruct (after_write_fields value html s He Hv)
    as (Ed1 & Ev1 & El1 & In1 & Cn1). fold s1 in Ed1, Ev1, El1, In1, Cn1.
  pose proof (quiet_values_events s s1 Ev1 Hq) as Hq1.
  destruct Hq as (Hset & _). destruct Hq1 as (Hset1 & Hb1 & Ha1).
  unfold setEditorValue.
  rewrite (bind_ok _ _ _ _ _ _ (fire_quiet P rec _ [value] s Hset)).
  change (strict_eq VUndef VFalse) with false. cbn beta iota.
  rewrite gets_bind, He, Hv.
  assert (Ewrite :
    match value with
    | VStr v =>
        if negb (String.eqb html v)
        then modify (setNativeEditorValue v) else mret tt
    | _ => mret tt
    end s = ([], Ok tt s1)).
  { subst s1. unfold after_write, setNativeEditorValue.
    destruct value; try reflexivity.
    destruct (String.eqb html s0); cbn; [reflexivity|].
    unfold modify. now rewrite He. }
  rewrite (bind_ok _ _ _ _ _ _ Ewrite).
  rewrite gets_bind. unfold getElementValue. rewrite El1. fold old_value.
  pose proof (getEditorValue_quiet P rec true s1 Hb1 Ha1) as Eget.
  unfold getNativeEditorValue in Eget. rewrite Ed1 in Eget.
  cbn zeta in Eget. fold new_value in Eget.
  rewrite (bind_ok _ _ _ _ _ _ Eget).
  rewrite gets_bind, Cn1, strict_eq_str.
  destruct (negb (String.eqb old_value new_value)
            && (__callChangeCount s <? SAFE_COUNT_CHANGE_CALL)%nat).
  - pose proof (setElementValue_quiet P rec s1 _
                  (conj Hset1 (conj Hb1 Ha1)) Ed1) as Eelem.
    cbn zeta in Eelem. fold new_value in Eelem.
    rewrite (bind_ok _ _ _ _ _ _ Eelem).
    rewrite modify_bind. unfold before_change.
    replace (__callChangeCount
               (if inline s1 then s1 else set_element_value new_value s1))
      with (__callChangeCount s1) by now destruct (inline s1).
    match goal with
    | |- context [(finally ?m ?f ≫= ?k) ?st] =>
        destruct ((finally m f ≫= k) st) as [t r]
    end.
    subst pre. reflexivity.
  - reflexivity.
Qed.

(** ** The guard against nested [change] rounds *)

Lemma change_fires_app (t1 t2 : list obs) :
  change_fires (t1 ++ t2) = change_fires t1 + change_fires t2.
Proof.
  unfold change_fires. now rewrite List.filter_app, List.length_app.
Qed.

(** A [change] round whose only handler answers by one call of
    [setEditorValue]: the round is that call. *)
Lemma fire_answering P n next s new_value old_value t' s3 :
  handlers_for "change" s = [Sample.answering next] ->
  setEditorValue P (run P n) (VStr (next new_value old_value)) s =
    (t', Ok tt s3) ->
  fire P (run P (S n)) "change" [VStr new_value; VStr old_value] s =
    (OFire "change" [VStr new_value; VStr old_value] :: t',
     Ok (fire_result P VUndef VUndef) s3).
Proof.
  intros Hh E. unfold fire. rewrite emit_bind, gets_bind, Hh.
  cbn [run_handlers Sample.answering run_script run step].
  cbv [mbind M_bind bind mret M_ret ret]. rewrite E. cbn.
  now rewrite !app_nil_r.
Qed.

Lemma answered_change_bounded P next k :
  forall n s x html,
    quiet_values s ->
    handlers_for "change" s = [Sample.answering next] ->
    editor s = Some html ->
    __callChangeCount s + k = SAFE_COUNT_CHANGE_CALL ->
    k <= n ->
    exists t s',
      setEditorValue P (run P n) (VStr x) s = (t, Ok tt s') /\
      change_fires t <= k /\
      (__callChangeCount s' = 0 \/
       (change_fires t = 0 /\ __callChangeCount s' = __callChangeCount s)).
Proof.
  induction k as [|k IH]; intros n s x html Hq Hc He Hk Hn;
    rewrite (setEditorValue_quiet P _ (VStr x) s html Hq He eq_refl);
    cbn zeta;
    destruct (negb (String.eqb _ _)) eqn:Hdiff; cbn [andb];
    try (eexists _, _; split; [reflexivity|]; split; [cbn; lia|];
         right; split; [reflexivity|];
         now destruct (after_write_fields (VStr x) html s He eq_refl)
           as (_ & _ & _ & _ & ->)).
  - (* the counter has reached the threshold *)
    assert (Hfull : (__callChangeCount s <? SAFE_COUNT_CHANGE_CALL)%nat = false)
      by (apply Nat.ltb_ge; lia).
    rewrite Hfull.
    eexists _, _. split; [reflexivity|]. split; [cbn; lia|].
    right. split; [reflexivity|].
    now destruct (after_write_fields (VStr x) html s He eq_refl)
      as (_ & _ & _ & _ & ->).
  - (* one more round, then the handler calls back *)
    assert (Hroom : (__callChangeCount s <? SAFE_COUNT_CHANGE_CALL)%nat = true)
      by (apply Nat.ltb_lt; lia).
    rewrite Hroom.
    destruct n as [|n]; [lia|].
    destruct (after_write_fields (VStr x) html s He eq_refl)
      as (Ed1 & Ev1 & El1 & In1 & Cn1).
    set (s1 := after_write (VStr x) html s) in *. clearbody s1.
    set (new_value := clean_value P true (written (VStr x) html)).
    set (s2 := before_change new_value s1).
    assert (Hs2 : events s2 = events s /\
                  editor s2 = Some (written (VStr x) html) /\
                  __callChangeCount s2 = __callChangeCount s + 1).
    { subst s2. unfold before_change.
      destruct (inline s1); cbn; rewrite ?Ev1, ?Ed1, ?Cn1; auto. }
    destruct Hs2 as (Ev2 & Ed2 & Cn2).
    assert (Hq2 : quiet_values s2) by now apply (quiet_values_events s).
    assert (Hc2 : handlers_for "change" s2 = [Sample.answering next])
      by (unfold handlers_for in *; now rewrite Ev2).
    destruct (IH n s2 (next new_value (element_value s)) _ Hq2 Hc2 Ed2
                ltac:(lia) ltac:(lia)) as (t' & s3 & E & Hfires & _).
    pose proof (fire_answering P n next s2 new_value (element_value s)
                  t' s3 Hc2 E) as Efire.
    unfold finally at 1. cbv [mbind M_bind bind]. unfold finally.
    rewrite Efire. cbn [mret M_ret ret].
    eexists _, _. split; [reflexivity|]. split; [|now left].
    rewrite app_nil_r, !change_fires_app.
    change (change_fires (OFire "change" ?a :: t'))
      with (S (change_fires t')).
    change (change_fires (OFire "beforeSetValueToEditor" ?a :: read_trace ?v))
      with 0.
    change (change_fires (read_trace ?v)) with 0. lia.
Qed.



(** The bound rests on the handler answering with one call.  The counter
    is set to zero when a round ends, not back to the value it had, so a
    second call made by the same handler starts from zero: with a handler
    that calls [setEditorValue] twice, the call below has fired [change]
    more often than the threshold when the nesting depth 12 is used up,
    and has not returned. *)
Example answering_twice_is_not_bounded :
  let P := Sample.platform0 in
  let outcome :=
    setEditorValue P (run P 12) (VStr "a") Sample.answered_twice0 in
  snd outcome = Fuel /\
  SAFE_COUNT_CHANGE_CALL < change_fires (fst outcome).
Proof. vm_compute. split; [reflexivity|lia]. Qed.

(** ** Custom commands *)

Lemma marks_app tag (t1 t2 : list obs) :
  marks tag (t1 ++ t2) = marks tag t1 + marks tag t2.
Proof. unfold marks. now rewrite List.filter_app, List.length_app. Qed.

Lemma marks_other tag (o : obs) (t : list obs) :
  o <> OEmit tag -> marks tag (o :: t) = marks tag t.
Proof.
  intros H. unfold marks. cbn [List.filter].
  now rewrite bool_decide_eq_false_2.
Qed.

Lemma marks_same tag (t : list obs) :
  marks tag (OEmit tag :: t) = S (marks tag t).
Proof.
  unfold marks. cbn [List.filter]. now rewrite bool_decide_eq_true_2.
Qed.

(** Registration appends under the lowercased name. *)
Lemma registerCommand_appends P name command s :
  commands (registerCommand P name command s) !! toLowerCase name =
    Some (default [] (commands s !! toLowerCase name) ++ [command])%list.
Proof.
  unfold registerCommand.
  set (s1 := set_commands _ s).
  assert (H1 : commands s1 !! toLowerCase name =
               Some (default [] (commands s !! toLowerCase name)
                     ++ [command])%list)
    by (subst s1; cbn [commands set_commands]; apply lookup_insert_eq).
  destruct command as [f|exec own]; [exact H1|].
  cbv zeta. destruct (hotkeys_or _ own) as [h|]; [|exact H1].
  destruct (truthy_hotkeys _); exact H1.
Qed.

(** The handlers of one name run in the order of the list, whatever they
    return, and the result is the last one that is not [undefined]. *)
Lemma exec_all_spies rec (spies : list (string * jsval))
    (cs : list custom_command) args result s :
  Forall2 (fun c spy => callback_of c = Sample.spy (fst spy) (snd spy))
          cs spies ->
  exec_all rec cs args result s =
    (List.map (fun spy => OEmit (fst spy)) spies,
     Ok (fold_left
           (fun acc v => if negb (strict_eq v VUndef) then v else acc)
           (List.map snd spies) result) s).
Proof.
  intros H. revert result.
  induction H as [|c [tag v] cs spies Hc _ IH]; intros result;
    cbn [exec_all]; [reflexivity|].
  rewrite Hc. cbn [fst snd Sample.spy run_script].
  cbv [mbind M_bind bind emit mret M_ret ret]. rewrite IH. reflexivity.
Qed.

(** The synchronisation that ends [execCommand], on an instance without
    handlers. *)
Lemma sync_without_handlers P rec s html :
  events s = [] ->
  editor s = Some html ->
  exists t s',
    setEditorValue P rec VUndef s = (t, Ok tt s') /\
    forall tag, marks tag t = 0.
Proof.
  intros Hev He.
  assert (Hq : quiet_values s) by (repeat split; now apply handlers_for_empty).
  rewrite (setEditorValue_quiet P rec VUndef s html Hq He eq_refl).
  cbn zeta. destruct (_ && _).
  - cbn [after_write].
    assert (Hc : handlers_for "change"
                   (before_change (clean_value P true (written VUndef html))
                      s) = [])
      by (apply handlers_for_empty; unfold before_change;
          now destruct (inline s)).
    cbv [mbind M_bind bind finally].
    rewrite (fire_quiet P rec "change" _ _ Hc).
    eexists _, _. split; [reflexivity|]. intros tag.
    unfold read_trace. cbn [app].
    now rewrite !marks_other by discriminate.
  - eexists _, _. split; [reflexivity|]. intros tag.
    unfold read_trace. now rewrite !marks_other by discriminate.
Qed.

Lemma selection_focus_live s html :
  editor s = Some html -> selection_focus s = ([OFocus], Ok tt s).
Proof. intros He. unfold selection_focus. now rewrite gets_bind, He. Qed.

Lemma native_exec_live P c showUI value result s html :
  editor s = Some html ->
  native_exec P c showUI value result s =
    ([ONative c showUI value],
     match nativeExecCommand P c showUI value html with
     | Some (r, html') => Ok r (set_editor (Some html') s)
     | None => Ok result s
     end).
Proof.
  intros He. unfold native_exec. rewrite emit_bind, gets_bind, He.
  now destruct (nativeExecCommand P c showUI value html) as [[r html']|].
Qed.

(** The native phase of [execCommand] on a live instance. *)
Lemma native_phase P c showUI value result s html :
  events s = [] ->
  editor s = Some html ->
  exists t r s',
    (if negb (strict_eq result VFalse)
     then
       selection_focus ;;
       if String.eqb c "selectall"
       then emit OSelectAll ;; mret result
       else native_exec P c showUI value result
     else mret result) s = (t, Ok r s') /\
    (forall tag, marks tag t = 0) /\
    events s' = [] /\
    exists html', editor s' = Some html'.
Proof.
  intros Hev He. destruct (negb (strict_eq result VFalse)).
  - rewrite (bind_ok _ _ _ _ _ _ (selection_focus_live s html He)).
    destruct (String.eqb c "selectall").
    + eexists _, _, _. split; [reflexivity|]. split; [|eauto].
      intros tag. cbn [app]. now rewrite !marks_other by discriminate.
    + rewrite (native_exec_live P c showUI value result s html He).
      destruct (nativeExecCommand P c showUI value html) as [[r html']|];
        (eexists _, _, _; split; [reflexivity|]; split; [|cbn; eauto];
         intros tag; cbn [app]; now rewrite !marks_other by discriminate).
  - eexists _, _, _. split; [reflexivity|]. split; [|eauto].
    intros tag. reflexivity.
Qed.



(** ** Mode *)

(** Evaluating the character tests of [parseInt] on a literal. *)
Ltac eval_digit :=
  match goal with
  | |- context [digit_of ?c] =>
      let v := eval vm_compute in (digit_of c) in
      change (digit_of c) with v
  end.

Ltac eval_space :=
  match goal with
  | |- context [is_space ?c] =>
      let v := eval vm_compute in (is_space c) in
      change (is_space c) with v
  end.

Lemma digits_prefix_acc (d : Decimal.uint) (acc : positive) :
  digits_prefix (NilEmpty.string_of_uint d) (Some (Z.pos acc)) =
  Some (Z.pos (Pos.of_uint_acc d acc)).
Proof.
  revert acc.
  induction d; intros acc;
    cbn [NilEmpty.string_of_uint Pos.of_uint_acc digits_prefix];
    [reflexivity|..];
    eval_digit; cbn [default from_option id]; rewrite <- IHd;
    apply (f_equal (digits_prefix _)), (f_equal Some); lia.
Qed.

Lemma digits_prefix_zero (d : Decimal.uint) (acc : option Z) :
  default 0%Z acc = 0%Z ->
  d <> Decimal.Nil ->
  digits_prefix (NilEmpty.string_of_uint d) acc =
  Some (Z.of_N (Pos.of_uint d)).
Proof.
  revert acc. induction d; intros acc Hacc Hd; [now elim Hd|..];
    cbn [NilEmpty.string_of_uint Pos.of_uint digits_prefix];
    eval_digit; rewrite Hacc; cbn [Z.mul Z.add Z.of_N];
    try apply digits_prefix_acc.
  destruct d; try (apply IHd; [reflexivity|discriminate]).
  reflexivity.
Qed.

Lemma parseInt10_uint (p : positive) :
  let str := NilZero.string_of_uint (Pos.to_uint p) in
  parseInt10 str = VNum (Z.pos p) /\
  parseInt10 (String "-" str) = VNum (Z.neg p).
Proof.
  pose proof (DecimalPos.Unsigned.of_to p) as H.
  assert (Hd : Pos.to_uint p <> Decimal.Nil)
    by (intros E; now rewrite E in H).
  pose proof (digits_prefix_zero (Pos.to_uint p) None eq_refl Hd) as D.
  rewrite H in D. cbn [Z.of_N] in D.
  destruct (Pos.to_uint p); [now elim Hd|..];
    cbn [NilZero.string_of_uint]; cbn zeta;
    unfold parseInt10; cbn [skip_spaces NilEmpty.string_of_uint] in *;
    repeat eval_space; cbn -[digits_prefix]; now rewrite D.
Qed.

(** [parseInt(z.toString(), 10)] is [z]. *)
Lemma parseInt10_number (z : Z) : parseInt10 (number_toString z) = VNum z.
Proof.
  unfold number_toString. destruct z as [|p|p]; [reflexivity|..];
    cbn [Z.to_int NilZero.string_of_int]; apply parseInt10_uint.
Qed.

(** The validation of the source agrees with the three legal values. *)
Lemma checked_mode_legal (requested : jsval) :
  checked_mode requested = default MODE_WYSIWYG (legal_mode requested).
Proof.
  unfold checked_mode, legal_mode, inArray, MODE_WYSIWYG, MODE_SOURCE,
    MODE_SPLIT.
  destruct requested as [| |b|z| |str]; try reflexivity.
  cbn [existsb strict_eq].
  destruct (decide (z = 1 \/ z = 2 \/ z = 3)%Z) as [[->|[->| ->]]|Hn];
    try reflexivity.
  rewrite !bool_decide_eq_false_2; [reflexivity|intros [=]; lia..].
Qed.

Lemma setMode_ensures P rec m s t1 r requested s1 :
  (forall c, keeps (rec c)) ->
  fire_with_payload P rec "beforeSetMode" (parseInt10 (mode_toString m)) s =
    (t1, Ok (r, requested) s1) ->
  r <> VFalse ->
  ensures (setMode P rec m) s (fun _ s' =>
    getMode s' = default MODE_WYSIWYG (legal_mode requested)).
Proof.
  intros Hrec Hfire Hr. unfold setMode.
  apply ensures_bind, ensures_gets.
  eapply ensures_bind_ok; [exact Hfire|]. cbn beta iota.
  rewrite (strict_eq_false_r r Hr).
  apply ensures_bind, ensures_modify.
  apply ensures_bind, ensures_gets.
  apply ensures_bind.
  assert (Hmid : forall (b : bool) Q,
            Q tt (if b
                  then set_stored_mode (Some (checked_mode requested))
                         (set_mode (checked_mode requested) s1)
                  else set_mode (checked_mode requested) s1) ->
            ensures (if b
                     then modify (fun s => set_stored_mode (Some (mode s)) s)
                     else mret tt)
                    (set_mode (checked_mode requested) s1) Q)
    by (intros [] Q HQ; exact HQ).
  apply Hmid. clear Hmid.
  apply ensures_bind, ensures_modify.
  apply ensures_bind, ensures_gets.
  match goal with |- ensures (if ?b then _ else _) _ _ => destruct b end.
  - apply ensures_bind, ensures_keeps; [now apply fire_keeps|].
    intros a s' K. apply ensures_ret. unfold getMode.
    rewrite <- checked_mode_legal.
    destruct (saveModeInStorage _); settings_inv K; congruence.
  - apply ensures_ret. unfold getMode. rewrite <- checked_mode_legal.
    now destruct (saveModeInStorage _).
Qed.

Lemma setMode_returns P rec m s t1 r requested s1 :
  fire_with_payload P rec "beforeSetMode" (parseInt10 (mode_toString m)) s =
    (t1, Ok (r, requested) s1) ->
  r <> VFalse ->
  handlers_for "afterSetMode" s1 = [] ->
  returns (setMode P rec m) s (fun _ _ => True).
Proof.
  intros Hfire Hr Hafter. unfold setMode.
  apply returns_bind, returns_gets.
  eapply returns_bind_ok; [exact Hfire|]. cbn beta iota.
  rewrite (strict_eq_false_r r Hr).
  apply returns_bind, returns_modify.
  apply returns_bind, returns_gets.
  apply returns_bind.
  destruct (saveModeInStorage _);
    [apply returns_modify | apply returns_ret];
    (apply returns_bind, returns_modify;
     apply returns_bind, returns_gets;
     match goal with |- returns (if ?b then _ else _) _ _ => destruct b end;
     [ apply returns_bind, returns_fire_quiet;
       [exact Hafter | now apply returns_ret]
     | now apply returns_ret ]).
Qed.




(** ** Hotkeys of registered commands *)

Lemma existsb_eqb_In (key : string) (keys : list string) :
  In key keys -> existsb (String.eqb key) keys = true.
Proof.
  intros H. apply existsb_exists. exists key. split; [exact H|].
  apply String.eqb_refl.
Qed.

Lemma registerHotkeyToCommand_binds P h commandName s key :
  In key (shortcuts P h) ->
  let s' := registerHotkeyToCommand P h commandName s in
  In (Binding key "hotkey" (hotkey_handler commandName)) (events s') /\
  (forall b, In b (events s') -> b_event b = key ->
             b_namespace b = "hotkey" ->
             b_handler b = hotkey_handler commandName).
Proof.
  intros Hkey s'. subst s'. unfold registerHotkeyToCommand, events_on.
  cbn [events set_events]. split.
  - apply in_app_iff. right. apply in_map_iff. now exists key.
  - intros b Hb Hev Hns. apply in_app_iff in Hb as [Hb|Hb].
    + unfold events_off in Hb. apply filter_In in Hb as [_ Hb].
      rewrite Hev, Hns, (existsb_eqb_In _ _ Hkey) in Hb. discriminate.
    + apply in_map_iff in Hb as (k & <- & _). reflexivity.
Qed.




(** * Further properties of the code *)

Import Invariant.

(** ** Synchronisation of the two values *)

Lemma change_round_returns_only P rec args s :
  Forall returns_only (handlers_for "change" s) ->
  (finally (fire P rec "change" args) (set_callChangeCount 0) ;; mret tt) s =
    ([OFire "change" args], Ok tt (set_callChangeCount 0 s)).
Proof.
  intros H. destruct (fire_returns_only P rec "change" args s H) as [r Er].
  cbv [mbind M_bind bind finally]. now rewrite Er.
Qed.

(** The outcome of [setEditorValue] on a live instance whose source
    element is not the container, when no handler overrides a value and
    the [change] handlers only return. *)
Lemma setEditorValue_settled P rec value s html :
  quiet_values s ->
  Forall returns_only (handlers_for "change" s) ->
  editor s = Some html ->
  inline s = false ->
  not_string_nor_undefined value = false ->
  __callChangeCount s < SAFE_COUNT_CHANGE_CALL ->
  exists t s',
    setEditorValue P rec value s = (t, Ok tt s') /\
    editor s' = Some (written value html) /\
    element_value s' = clean_value P true (written value html) /\
    events s' = events s /\
    inline s' = false /\
    change_fires t =
      (if String.eqb (element_value s)
                     (clean_value P true (written value html))
       then 0 else 1) /\
    (__callChangeCount s' = 0 \/ s' = after_write value html s).
Proof.
  intros Hq Hc He Hin Hv Hroom.
  destruct (after_write_fields value html s He Hv)
    as (Ed1 & Ev1 & El1 & In1 & Cn1).
  rewrite (setEditorValue_quiet P rec value s html Hq He Hv). cbn zeta.
  apply Nat.ltb_lt in Hroom. rewrite Hroom, andb_true_r.
  destruct (String.eqb_spec (element_value s)
              (clean_value P true (written value html))) as [Hsame|Hdiff];
    cbn [negb].
  - eexists _, _. split; [reflexivity|].
    rewrite Ed1, El1, Ev1, In1. repeat split; auto.
  - set (s1 := after_write value html s) in *. clearbody s1.
    set (new_value := clean_value P true (written value html)) in *.
    assert (Hc2 : Forall returns_only
                    (handlers_for "change" (before_change new_value s1))).
    { unfold handlers_for, before_change in *.
      destruct (inline s1); cbn; now rewrite Ev1. }
    rewrite (change_round_returns_only P rec _ _ Hc2).
    eexists _, _. split; [reflexivity|].
    unfold before_change. rewrite In1, Hin. cbn.
    rewrite Ed1, Ev1, In1. repeat split; auto.
Qed.



(** X2.  Setting the same value twice: under the same conditions the
    second [setEditorValue] with the value just set fires no [change] and
    leaves the instance exactly as the first call left it. *)
Theorem setEditorValue_twice_is_once (P : platform)
    (rec : call -> M jsval) (value : jsval) (s : state) (html : string) :
  quiet_values s ->
  Forall returns_only (handlers_for "change" s) ->
  editor s = Some html ->
  inline s = false ->
  not_string_nor_undefined value = false ->
  __callChangeCount s < SAFE_COUNT_CHANGE_CALL ->
  exists t s',
    setEditorValue P rec value s = (t, Ok tt s') /\
    exists t',
      setEditorValue P rec value s' = (t', Ok tt s') /\
      change_fires t' = 0.
Proof.
  intros Hq Hc He Hin Hv Hroom.
  destruct (setEditorValue_settled P rec value s html Hq Hc He Hin Hv Hroom)
    as (t & s' & E & Ed & El & Ev & In' & _ & _).
  exists t, s'. split; [exact E|].
  pose proof (quiet_values_events s s' Ev Hq) as Hq'.
  rewrite (setEditorValue_quiet P rec value s' _ Hq' Ed Hv). cbn zeta.
  assert (Hw : written value (written value html) = written value html)
    by now destruct value.
  assert (Ha : after_write value (written value html) s' = s').
  { unfold after_write. destruct value; try reflexivity.
    cbn [written]. now rewrite String.eqb_refl. }
  rewrite Hw, El, String.eqb_refl, Ha. cbn [negb andb].
  eexists. split; reflexivity.
Qed.

Lemma setEditorValue_twice_is_once_witness :
  let P := Sample.platform0 in
  exists t s' t',
    setEditorValue P (run P 0) (VStr "<p>x</p>") Sample.instance0 =
      (t, Ok tt s') /\
    change_fires t = 1 /\
    setEditorValue P (run P 0) (VStr "<p>x</p>") s' = (t', Ok tt s') /\
    change_fires t' = 0.
Proof.
  intros P.
  destruct (setEditorValue_twice_is_once P (run P 0)
              (VStr "<p>x</p>") Sample.instance0 ""
              ltac:(repeat split) ltac:(constructor) eq_refl eq_refl eq_refl
              ltac:(unfold SAFE_COUNT_CHANGE_CALL; cbn; lia))
    as (t & s' & E & t' & E' & F').
  exists t, s', t'. split; [exact E|]. split; [|now split].
  assert (Et : t = fst (setEditorValue P (run P 0) (VStr "<p>x</p>")
                          Sample.instance0)) by now rewrite E.
  rewrite Et. reflexivity.
Defined.

(** [setElementValue(v)] when [getEditorValue] reads [v] back: the source
    element is written and the editor is not set again. *)
Lemma setElementValue_reads_back P rec s v :
  handlers_for "beforeGetValueFromEditor" s = [] ->
  handlers_for "afterGetValueFromEditor" s = [] ->
  let s1 := if inline s then s else set_element_value v s in
  clean_value P true (getNativeEditorValue s1) = v ->
  setElementValue P rec (VStr v) s = (read_trace v, Ok tt s1).
Proof.
  intros Hb Ha s1 Hv. unfold setElementValue.
  cbn [not_string_nor_undefined]. cbn beta iota.
  assert (E1 : (gets inline ≫= (fun isContainer : bool =>
                  (if negb isContainer
                   then modify (set_element_value v)
                   else mret tt) ≫= (fun _ => mret (VStr v)))) s =
               ([], Ok (VStr v) s1))
    by (subst s1; rewrite gets_bind; now destruct (inline s)).
  rewrite (bind_ok _ _ _ _ _ _ E1).
  assert (Ev1 : events s1 = events s) by (subst s1; now destruct (inline s)).
  assert (Hb1 : handlers_for "beforeGetValueFromEditor" s1 = [])
    by (unfold handlers_for in *; now rewrite Ev1).
  assert (Ha1 : handlers_for "afterGetValueFromEditor" s1 = [])
    by (unfold handlers_for in *; now rewrite Ev1).
  rewrite (bind_ok _ _ _ _ _ _ (getEditorValue_quiet P rec true s1 Hb1 Ha1)).
  rewrite Hv, strict_eq_str, String.eqb_refl. reflexivity.
Qed.

(** [setElementValue(v)] when [getEditorValue] reads something else: the
    source element is written and [setEditorValue(v)] is called. *)
Lemma setElementValue_calls_back P rec s v :
  handlers_for "beforeGetValueFromEditor" s = [] ->
  handlers_for "afterGetValueFromEditor" s = [] ->
  let s1 := if inline s then s else set_element_value v s in
  let current := clean_value P true (getNativeEditorValue s1) in
  current <> v ->
  setElementValue P rec (VStr v) s =
    (let '(t, r) := (rec (CSetEditorValue (VStr v)) ;; mret tt) s1 in
     (read_trace current ++ t, r)%list).
Proof.
  intros Hb Ha s1 current Hv. unfold setElementValue.
  cbn [not_string_nor_undefined]. cbn beta iota.
  assert (E1 : (gets inline ≫= (fun isContainer : bool =>
                  (if negb isContainer
                   then modify (set_element_value v)
                   else mret tt) ≫= (fun _ => mret (VStr v)))) s =
               ([], Ok (VStr v) s1))
    by (subst s1; rewrite gets_bind; now destruct (inline s)).
  rewrite (bind_ok _ _ _ _ _ _ E1).
  assert (Ev1 : events s1 = events s) by (subst s1; now destruct (inline s)).
  assert (Hb1 : handlers_for "beforeGetValueFromEditor" s1 = [])
    by (unfold handlers_for in *; now rewrite Ev1).
  assert (Ha1 : handlers_for "afterGetValueFromEditor" s1 = [])
    by (unfold handlers_for in *; now rewrite Ev1).
  rewrite (bind_ok _ _ _ _ _ _ (getEditorValue_quiet P rec true s1 Hb1 Ha1)).
  fold current. rewrite strict_eq_str.
  apply String.eqb_neq in Hv. rewrite String.eqb_sym, Hv. cbn [negb].
  now destruct ((rec (CSetEditorValue (VStr v)) ;; mret tt) s1).
Qed.

(** [setEditorValue] on a live instance, from the outcome of the
    [beforeSetValueToEditor] round on: the value the round answered, when
    it is a string, is the one written. *)
Lemma setEditorValue_live P rec value s t1 r s1 html :
  fire P rec "beforeSetValueToEditor" [value] s = (t1, Ok r s1) ->
  r <> VFalse ->
  let chosen := match r with VStr _ => r | _ => value end in
  handlers_for "beforeGetValueFromEditor" s1 = [] ->
  handlers_for "afterGetValueFromEditor" s1 = [] ->
  editor s1 = Some html ->
  not_string_nor_undefined chosen = false ->
  let s2 := after_write chosen html s1 in
  let old_value := element_value s1 in
  let new_value := clean_value P true (written chosen html) in
  setEditorValue P rec value s =
    if negb (String.eqb old_value new_value)
       && (__callChangeCount s1 <? SAFE_COUNT_CHANGE_CALL)%nat
    then
      let '(t, res) :=
        (finally (fire P rec "change" [VStr new_value; VStr old_value])
                 (set_callChangeCount 0) ;;
         mret tt) (before_change new_value s2) in
      ((t1 ++ read_trace new_value ++ read_trace new_value ++ t)%list, res)
    else ((t1 ++ read_trace new_value)%list, Ok tt s2).
Proof.
  intros Hfire Hr chosen Hb Ha He Hv s2 old_value new_value.
  destruct (after_write_fields chosen html s1 He Hv)
    as (Ed2 & Ev2 & El2 & In2 & Cn2). fold s2 in Ed2, Ev2, El2, In2, Cn2.
  assert (Hb2 : handlers_for "beforeGetValueFromEditor" s2 = [])
    by (unfold handlers_for in *; now rewrite Ev2).
  assert (Ha2 : handlers_for "afterGetValueFromEditor" s2 = [])
    by (unfold handlers_for in *; now rewrite Ev2).
  unfold setEditorValue.
  rewrite (bind_ok _ _ _ _ _ _ Hfire).
  rewrite (strict_eq_false_r r Hr). cbn beta iota. fold chosen.
  rewrite gets_bind, He, Hv.
  assert (Ewrite :
    match chosen with
    | VStr v =>
        if negb (String.eqb html v)
        then modify (setNativeEditorValue v) else mret tt
    | _ => mret tt
    end s1 = ([], Ok tt s2)).
  { subst s2. unfold after_write, setNativeEditorValue.
    destruct chosen; try reflexivity.
    destruct (String.eqb html s0); cbn; [reflexivity|].
    unfold modify. now rewrite He. }
  rewrite (bind_ok _ _ _ _ _ _ Ewrite).
  rewrite gets_bind. unfold getElementValue. rewrite El2. fold old_value.
  pose proof (getEditorValue_quiet P rec true s2 Hb2 Ha2) as Eget.
  unfold getNativeEditorValue in Eget. rewrite Ed2 in Eget.
  cbn zeta in Eget. fold new_value in Eget.
  rewrite (bind_ok _ _ _ _ _ _ Eget).
  rewrite gets_bind, Cn2, strict_eq_str.
  destruct (negb (String.eqb old_value new_value)
            && (__callChangeCount s1 <? SAFE_COUNT_CHANGE_CALL)%nat).
  - assert (Eelem : setElementValue P rec (VStr new_value) s2 =
                      (read_trace new_value,
                       Ok tt (if inline s2 then s2
                              else set_element_value new_value s2))).
    { apply setElementValue_reads_back; trivial.
      unfold getNativeEditorValue.
      now destruct (inline s2); cbn; rewrite Ed2. }
    rewrite (bind_ok _ _ _ _ _ _ Eelem).
    rewrite modify_bind. unfold before_change.
    replace (__callChangeCount
               (if inline s2 then s2 else set_element_value new_value s2))
      with (__callChangeCount s2) by now destruct (inline s2).
    match goal with
    | |- context [(finally ?m ?f ≫= ?k) ?st] =>
        destruct ((finally m f ≫= k) st) as [t res]
    end.
    reflexivity.
  - reflexivity.
Qed.

(** X3.  A value that is neither a string nor [undefined] makes
    [setEditorValue] throw [value must be string], whether the editable
    region exists or not, unless the [beforeSetValueToEditor] round
    answers false or a string; the instance is left as the round left it:
    nothing is written. *)
Theorem setEditorValue_rejects_non_strings (P : platform)
    (rec : call -> M jsval) (value : jsval) (s s1 : state)
    (t1 : list obs) (r : jsval) :
  fire P rec "beforeSetValueToEditor" [value] s = (t1, Ok r s1) ->
  r <> VFalse ->
  (forall w, r <> VStr w) ->
  not_string_nor_undefined value = true ->
  setEditorValue P rec value s = (t1, Exn "value must be string" s1).
Proof.
  intros Hfire Hr Hstr Hv. unfold setEditorValue.
  rewrite (bind_ok _ _ _ _ _ _ Hfire).
  rewrite (strict_eq_false_r r Hr). cbn beta iota.
  assert (Hchosen : match r with VStr _ => r | _ => value end = value)
    by (destruct r; trivial; now elim (Hstr s0)).
  rewrite Hchosen, gets_bind.
  destruct (editor s1).
  - rewrite Hv. cbn. now rewrite app_nil_r.
  - assert (Hu : strict_eq value VUndef = false)
      by (destruct value; trivial; discriminate).
    rewrite Hu. cbn [negb]. unfold setElementValue. rewrite Hv.
    cbn. now rewrite app_nil_r.
Qed.

Lemma setEditorValue_rejects_non_strings_witness :
  let P := Sample.platform0 in
  setEditorValue P (run P 0) (VNum 3) Sample.instance0 =
    ([OFire "beforeSetValueToEditor" [VNum 3]],
     Exn "value must be string" Sample.instance0) /\
  setEditorValue P (run P 0) VNull (set_editor None Sample.instance0) =
    ([OFire "beforeSetValueToEditor" [VNull]],
     Exn "value must be string" (set_editor None Sample.instance0)).
Proof.
  intros P. split.
  - apply (setEditorValue_rejects_non_strings P (run P 0) (VNum 3)
             Sample.instance0 Sample.instance0 _ VUndef eq_refl);
      [discriminate | discriminate | reflexivity].
  - apply (setEditorValue_rejects_non_strings P (run P 0) VNull
             (set_editor None Sample.instance0)
             (set_editor None Sample.instance0) _ VUndef eq_refl);
      [discriminate | discriminate | reflexivity].
Defined.



(** [setEditorValue(v)] when the editable region is absent, up to the
    test of [setElementValue]. *)
Lemma setEditorValue_absent P rec v s :
  quiet_values s ->
  editor s = None ->
  setEditorValue P rec (VStr v) s =
    (let '(t, r) := setElementValue P rec (VStr v) s in
     (OFire "beforeSetValueToEditor" [VStr v] :: t, r)).
Proof.
  intros (Hset & _) He. unfold setEditorValue.
  rewrite (bind_ok _ _ _ _ _ _ (fire_quiet P rec _ [VStr v] s Hset)).
  change (strict_eq VUndef VFalse) with false. cbn beta iota.
  rewrite gets_bind, He. reflexivity.
Qed.



(** X6.  Before the editable region exists, [setEditorValue(v)] with a
    value that [getEditorValue] would clean (the lone [<br>], a value with
    invisible spaces or selection markers) never returns:
    [setElementValue] reads back a value other than [v] and calls
    [setEditorValue(v)] again, which calls [setElementValue(v)] again, and
    so on at every depth of nesting. *)
Theorem absent_editor_sync_never_returns (P : platform)
    (v : string) (s : state) :
  quiet_values s ->
  editor s = None ->
  inline s = false ->
  clean_value P true v <> v ->
  forall n, snd (setEditorValue P (run P n) (VStr v) s) = Fuel.
Proof.
  intros Hq He Hin Hv n. revert s Hq He Hin.
  induction n as [|n IH]; intros s Hq He Hin;
    rewrite (setEditorValue_absent P _ v s Hq He);
    destruct Hq as (Hset & Hb & Ha);
    (rewrite (setElementValue_calls_back P _ s v Hb Ha);
     [|unfold getNativeEditorValue, getElementValue; rewrite Hin; cbn;
       now rewrite He]);
    rewrite Hin.
  - reflexivity.
  - cbn [run step]. cbv [mbind M_bind bind].
    specialize (IH (set_element_value v s)
                  ltac:(repeat split; assumption) He Hin).
    destruct (setEditorValue P (run P n) (VStr v) (set_element_value v s))
      as [t r]. cbn in IH. now rewrite IH.
Qed.

Lemma absent_editor_sync_never_returns_witness :
  let P := Sample.platform0 in
  snd (setEditorValue P (run P 25) (VStr "<br>")
         (set_editor None Sample.instance0)) = Fuel.
Proof.
  intros P.
  apply (absent_editor_sync_never_returns P "<br>"
           (set_editor None Sample.instance0));
    [repeat split | reflexivity | reflexivity | discriminate].
Defined.

(** The value [setElementValue] works with, and the instance once the
    source element has been written. *)
Lemma setElementValue_prepares P rec value s :
  not_string_nor_undefined value = false ->
  let v := match value with VStr v => v | _ => element_value s end in
  let s1 :=
    match value with
    | VStr v => if inline s then s else set_element_value v s
    | _ => s
    end in
  setElementValue P rec value s =
    (current ← getEditorValue P rec true;
     if negb (strict_eq (VStr v) current)
     then rec (CSetEditorValue (VStr v)) ;; mret tt
     else mret tt) s1.
Proof.
  intros Hv v s1. unfold setElementValue. rewrite Hv.
  assert (E1 :
    match value with
    | VStr v =>
        isContainer ← gets inline;
        (if negb isContainer then modify (set_element_value v)
         else mret tt) ;;
        mret (VStr v)
    | _ => v ← gets getElementValue; mret (VStr v)
    end s = ([], Ok (VStr v) s1)).
  { subst v s1. destruct value; try discriminate.
    - reflexivity.
    - rewrite gets_bind. now destruct (inline s). }
  rewrite (bind_ok _ _ _ _ _ _ E1). cbn [app].
  now destruct ((getEditorValue P rec true ≫= _) s1).
Qed.



(** ** The counter of nested rounds *)

Lemma settles_ret {A} (a : A) : settles (mret a).
Proof. intros s. cbn. lia. Qed.

Lemma settles_throw {A} msg : settles (@throw A msg).
Proof. intros s. cbn. lia. Qed.

Lemma settles_emit o : settles (emit o).
Proof. intros s. cbn. lia. Qed.

Lemma settles_gets {A} (f : state -> A) : settles (gets f).
Proof. intros s. cbn. lia. Qed.

Lemma settles_modify f :
  (forall s, __callChangeCount (f s) = __callChangeCount s) ->
  settles (modify f).
Proof. intros H s. cbn. rewrite H. lia. Qed.

Lemma settles_bind {A B} (m : M A) (k : A -> M B) :
  settles m -> (forall a, settles (k a)) -> settles (m ≫= k).
Proof.
  intros Hm Hk s. specialize (Hm s). cbv [mbind M_bind bind].
  destruct (m s) as [t [a s1|msg s1|]]; cbn in *; trivial.
  specialize (Hk a s1). destruct (k a s1) as [t2 [b s2|msg s2|]];
    cbn in *; trivial; lia.
Qed.

(** The round of [change]: whatever the counter was raised to, and
    whatever the handlers do, it is zero afterwards. *)
Lemma settles_round {A B} f (m : M A) (k : A -> M B) :
  (forall a, settles (k a)) ->
  settles (modify f ≫= fun _ => finally m (set_callChangeCount 0) ≫= k).
Proof.
  intros Hk s. cbv [mbind M_bind bind modify finally].
  destruct (m (f s)) as [t [a s1|msg s1|]]; cbn; trivial; [|lia].
  specialize (Hk a (set_callChangeCount 0 s1)).
  destruct (k a (set_callChangeCount 0 s1)) as [t2 [b s2|msg s2|]];
    cbn in *; trivial; lia.
Qed.

Create HintDb rounds discriminated.

Ltac settles_step :=
  first
    [ solve [auto 1 with rounds nocore]
    | apply settles_ret | apply settles_throw | apply settles_emit
    | apply settles_gets
    | apply settles_modify; intros ?; reflexivity
    | apply settles_round; intros ?
    | apply settles_bind; [|intros ?]
    | match goal with
      | |- settles (let '(_, _) := ?x in _) => destruct x
      | |- settles (if ?b then _ else _) => destruct b
      | |- settles (match ?x with _ => _ end) => destruct x
      end ].

Section Rounds.

Variable P : platform.
Variable rec : call -> M jsval.
Hypothesis rec_settles : forall c, settles (rec c).

#[local] Hint Resolve rec_settles : rounds.

Lemma run_script_settles sc payload : settles (run_script rec sc payload).
Proof.
  revert payload. induction sc; intros payload; cbn [run_script];
    repeat settles_step.
Qed.

#[local] Hint Resolve run_script_settles : rounds.

Lemma run_handlers_settles hs mkargs payload result :
  settles (run_handlers P rec hs mkargs payload result).
Proof.
  revert payload result. induction hs as [|h hs IH]; intros payload result;
    cbn [run_handlers]; repeat settles_step.
Qed.

#[local] Hint Resolve run_handlers_settles : rounds.

Lemma fire_settles name args : settles (fire P rec name args).
Proof. unfold fire. repeat settles_step. Qed.

Lemma fire_with_payload_settles name payload :
  settles (fire_with_payload P rec name payload).
Proof. unfold fire_with_payload. repeat settles_step. Qed.

#[local] Hint Resolve fire_settles fire_with_payload_settles : rounds.

Lemma getEditorValue_settles b : settles (getEditorValue P rec b).
Proof. unfold getEditorValue. repeat settles_step. Qed.

#[local] Hint Resolve getEditorValue_settles : rounds.

Lemma setElementValue_settles v : settles (setElementValue P rec v).
Proof. unfold setElementValue. repeat settles_step. Qed.

#[local] Hint Resolve setElementValue_settles : rounds.

Lemma setNativeEditorValue_count v s :
  __callChangeCount (setNativeEditorValue v s) = __callChangeCount s.
Proof. unfold setNativeEditorValue. now destruct (editor s). Qed.

Lemma setEditorValue_settles v : settles (setEditorValue P rec v).
Proof.
  unfold setEditorValue.
  repeat first
    [ apply settles_modify; apply setNativeEditorValue_count
    | settles_step ].
Qed.

#[local] Hint Resolve setEditorValue_settles : rounds.

Lemma exec_all_settles cs args result :
  settles (exec_all rec cs args result).
Proof.
  revert result. induction cs as [|c cs IH]; intros result; cbn [exec_all];
    repeat settles_step.
Qed.

#[local] Hint Resolve exec_all_settles : rounds.

Lemma execCustomCommands_settles c second third :
  settles (execCustomCommands rec c second third).
Proof. unfold execCustomCommands. repeat settles_step. Qed.

#[local] Hint Resolve execCustomCommands_settles : rounds.

Lemma execCommand_settles c showUI value :
  settles (execCommand P rec c showUI value).
Proof.
  unfold execCommand, selection_focus, native_exec. repeat settles_step.
Qed.

#[local] Hint Resolve execCommand_settles : rounds.

Lemma step_settles c : settles (step P rec c).
Proof. destruct c; cbn [step]; repeat settles_step. Qed.

End Rounds.

Lemma run_settles P n c : settles (run P n c).
Proof.
  revert c. induction n as [|n IH]; intros c; cbn [run].
  - now intros s.
  - now apply step_settles.
Qed.

(** X8.  The counter of nested [change] rounds never leaks: whatever the
    handlers and the custom commands do, a call of [setEditorValue],
    [setElementValue], [getEditorValue] or [execCommand] that returns or
    throws leaves [__callChangeCount] no higher than it found it; a call
    made with the counter at zero leaves it at zero, so every call made
    from outside a [change] handler has the whole allowance of the guard. *)
Theorem change_counter_never_leaks (P : platform) (n : nat) :
  (forall v, settles (setEditorValue P (run P n) v)) /\
  (forall v, settles (setElementValue P (run P n) v)) /\
  (forall b, settles (getEditorValue P (run P n) b)) /\
  (forall c showUI value, settles (execCommand P (run P n) c showUI value)) /\
  (forall v s,
     __callChangeCount s = 0 ->
     match snd (setEditorValue P (run P n) v s) with
     | Ok _ s' | Exn _ s' => __callChangeCount s' = 0
     | Fuel => True
     end).
Proof.
  pose proof (run_settles P n) as Hrec.
  split; [intros v; now apply setEditorValue_settles|].
  split; [intros v; now apply setElementValue_settles|].
  split; [intros b; now apply getEditorValue_settles|].
  split; [intros c showUI value; now apply execCommand_settles|].
  intros v s H0.
  pose proof (setEditorValue_settles P _ Hrec v s) as H.
  destruct (snd (setEditorValue P (run P n) v s)); trivial; lia.
Qed.

Lemma change_counter_never_leaks_witness :
  let P := Sample.platform0 in
  match snd (setEditorValue P (run P 0) (VStr "a") Sample.throwing0) with
  | Ok _ s' | Exn _ s' => __callChangeCount s' = 0
  | Fuel => True
  end /\
  exists t s',
    setEditorValue P (run P 0) (VStr "a") Sample.throwing0 =
      (t, Exn "boom" s').
Proof.
  intros P. split.
  - destruct (change_counter_never_leaks P 0) as (_ & _ & _ & _ & H).
    apply H. reflexivity.
  - eexists _, _. reflexivity.
Defined.

(** ** What the value methods and the commands leave alone *)

(** X9.  With handlers and custom commands that re-enter the instance
    only through [setEditorValue], [getEditorValue] and [execCommand], a
    call of these methods or of [setElementValue], whether it returns or
    throws, changes neither the mode, the options, the registered
    commands, the subscriptions, the lock nor the attributes of the view:
    all it can touch is the two values and the counter.  So a command
    never changes the mode, nor makes the editor readonly, disabled or
    locked. *)
Theorem value_methods_keep_settings (P : platform) (n : nat) :
  (forall v, keeps (setEditorValue P (run P n) v)) /\
  (forall v, keeps (setElementValue P (run P n) v)) /\
  (forall b, keeps (getEditorValue P (run P n) b)) /\
  (forall c showUI value, keeps (execCommand P (run P n) c showUI value)) /\
  (forall c showUI value s,
     match snd (execCommand P (run P n) c showUI value s) with
     | Ok _ s' | Exn _ s' =>
         getMode s' = getMode s /\
         getReadOnly s' = getReadOnly s /\
         getDisabled s' = getDisabled s /\
         Panel.holder (panel s') = Panel.holder (panel s)
     | Fuel => True
     end).
Proof.
  pose proof (run_keeps P n) as Hrec.
  split; [intros v; now apply setEditorValue_keeps|].
  split; [intros v; now apply setElementValue_keeps|].
  split; [intros b; now apply getEditorValue_keeps|].
  split; [intros c showUI value; now apply execCommand_keeps|].
  intros c showUI value s.
  pose proof (execCommand_keeps P _ Hrec c showUI value s) as H.
  unfold getMode, getReadOnly, getDisabled.
  destruct (snd (execCommand P (run P n) c showUI value s)); trivial;
    settings_inv H; by_fields.
Qed.

Lemma value_methods_keep_settings_witness :
  let P := Sample.platform0 in
  match snd (execCommand P (run P 0) "bold" VUndef VUndef
               Sample.instance0) with
  | Ok _ s' | Exn _ s' =>
      getMode s' = MODE_WYSIWYG /\ getReadOnly s' = false /\
      getDisabled s' = false /\ Panel.holder (panel s') = None
  | Fuel => True
  end.
Proof.
  intros P.
  destruct (value_methods_keep_settings P 0) as (_ & _ & _ & _ & H).
  apply (H "bold" VUndef VUndef Sample.instance0).
Defined.

(** ** Commands *)



(** X11.  A custom handler that answers false stops the command before
    the native one, as the documentation of [registerCommand] promises:
    when the handlers registered for the name end with the result false,
    [execCommand] neither focuses the selection nor runs the native
    command; it still fires [afterCommand], calls [setEditorValue()] and
    returns false. *)
Theorem custom_false_skips_native (P : platform) (rec : call -> M jsval)
    (c : string) (showUI value : jsval) (s s2 : state) (t2 : list obs) :
  getReadOnly s = false ->
  handlers_for "beforeCommand" s = [] ->
  let name := toLowerCase c in
  let showUI' := or_default VFalse showUI in
  let value' := or_default VNull value in
  execCustomCommands rec name showUI' value' s = (t2, Ok VFalse s2) ->
  execCommand P rec c showUI value s =
    (let '(t3, r) :=
       (fire P rec "afterCommand" [VStr name; showUI'; value'] ;;
        setEditorValue P rec VUndef ;;
        mret VFalse) s2 in
     ((OFire "beforeCommand" [VStr name; showUI'; value'] :: t2 ++ t3)%list,
      r)).
Proof.
  intros Hro Hbefore name showUI' value' Hcustom.
  unfold getReadOnly in Hro. unfold execCommand.
  fold name showUI' value'. rewrite gets_bind, Hro. cbn [andb].
  rewrite (bind_ok _ _ _ _ _ _ (fire_quiet P rec "beforeCommand" _ s Hbefore)).
  change (strict_eq VUndef VFalse) with false. cbn [negb].
  rewrite (bind_ok _ _ _ _ _ _ Hcustom).
  change (strict_eq VFalse VFalse) with true. cbn [negb].
  rewrite ret_bind.
  destruct ((fire P rec "afterCommand" [VStr name; showUI'; value'] ;;
             setEditorValue P rec VUndef ;;
             mret VFalse) s2) as [t3 r].
  reflexivity.
Qed.

Lemma custom_false_skips_native_witness :
  let P := Sample.platform0 in
  let s :=
    registerCommand P "replaceString"
      (CmdFunction (Sample.spy "replaced" VFalse)) Sample.instance0 in
  execCommand P (run P 0) "replaceString" VUndef VUndef s =
    ([OFire "beforeCommand" [VStr "replacestring"; VFalse; VNull];
      OEmit "replaced";
      OFire "afterCommand" [VStr "replacestring"; VFalse; VNull];
      OFire "beforeSetValueToEditor" [VUndef];
      OFire "beforeGetValueFromEditor" [];
      OFire "afterGetValueFromEditor" [VStr ""]],
     Ok VFalse s).
Proof.
  intros P s.
  rewrite (custom_false_skips_native P (run P 0) "replaceString" VUndef
             VUndef s s [OEmit "replaced"] eq_refl eq_refl eq_refl).
  reflexivity.
Defined.



(** ** The registry of commands and hotkeys *)

Lemma filter_filter_same {A} (f : A -> bool) (l : list A) :
  List.filter f (List.filter f l) = List.filter f l.
Proof.
  induction l as [|a l IH]; cbn [List.filter]; [reflexivity|].
  destruct (f a) eqn:E; cbn [List.filter]; [|exact IH].
  now rewrite E, IH.
Qed.

Lemma events_off_bindings (keys sub : list string) ns h :
  (forall k, In k sub -> In k keys) ->
  events_off keys ns (List.map (fun k => Binding k ns h) sub) = [].
Proof.
  intros Hsub. induction sub as [|k sub IH]; [reflexivity|].
  unfold events_off in *. cbn [List.map List.filter b_event b_namespace].
  rewrite (existsb_eqb_In k keys) by (apply Hsub; now left).
  rewrite String.eqb_refl. cbn [andb negb].
  apply IH. intros k' Hk'. apply Hsub. now right.
Qed.

Lemma events_off_on keys ns h bus :
  events_off keys ns (events_on keys ns h (events_off keys ns bus)) =
    events_off keys ns bus.
Proof.
  unfold events_on. unfold events_off at 1. rewrite List.filter_app.
  fold (events_off keys ns (events_off keys ns bus)).
  fold (events_off keys ns (List.map (fun k => Binding k ns h) keys)).
  rewrite events_off_bindings by auto.
  unfold events_off. now rewrite filter_filter_same, app_nil_r.
Qed.

(** The subscriptions outside the namespace of the hotkeys. *)
Lemma other_namespaces_off keys bus :
  List.filter (fun b => negb (String.eqb (b_namespace b) "hotkey"))
    (events_off keys "hotkey" bus) =
  List.filter (fun b => negb (String.eqb (b_namespace b) "hotkey")) bus.
Proof.
  unfold events_off. induction bus as [|b bus IH]; [reflexivity|].
  cbn [List.filter].
  destruct (String.eqb (b_namespace b) "hotkey") eqn:E.
  - rewrite andb_true_r. cbn [negb].
    destruct (existsb _ keys); cbn [negb List.filter]; [exact IH|].
    rewrite E. exact IH.
  - rewrite andb_false_r. cbn [negb List.filter]. rewrite E. cbn [negb].
    now rewrite IH.
Qed.

Lemma other_namespaces_on keys h bus :
  List.filter (fun b => negb (String.eqb (b_namespace b) "hotkey"))
    (events_on keys "hotkey" h bus) =
  List.filter (fun b => negb (String.eqb (b_namespace b) "hotkey")) bus.
Proof.
  unfold events_on. rewrite List.filter_app.
  assert (H : List.filter
                (fun b => negb (String.eqb (b_namespace b) "hotkey"))
                (List.map (fun k => Binding k "hotkey" h) keys) = [])
    by (induction keys as [|k keys IH]; [reflexivity|exact IH]).
  now rewrite H, app_nil_r.
Qed.

(** X13.  Registering a command touches nothing but the list of its own
    lowercased name and the hotkey subscriptions: the handlers registered
    under every other name, the subscriptions outside the namespace
    [hotkey], the two values, the mode and the options are what they
    were. *)
Theorem registerCommand_leaves_the_rest (P : platform) (name : string)
    (command : custom_command) (s : state) :
  let s' := registerCommand P name command s in
  (forall other,
     other <> toLowerCase name ->
     commands s' !! other = commands s !! other) /\
  List.filter (fun b => negb (String.eqb (b_namespace b) "hotkey"))
    (events s') =
  List.filter (fun b => negb (String.eqb (b_namespace b) "hotkey"))
    (events s) /\
  editor s' = editor s /\ element_value s' = element_value s /\
  mode s' = mode s /\ options s' = options s.
Proof.
  intros s'. subst s'. unfold registerCommand.
  set (s1 := set_commands _ s).
  assert (H1 : (forall other, other <> toLowerCase name ->
                  commands s1 !! other = commands s !! other) /\
               events s1 = events s /\ editor s1 = editor s /\
               element_value s1 = element_value s /\ mode s1 = mode s /\
               options s1 = options s).
  { subst s1. cbn. split; [|now repeat split].
    intros other Hne. now apply lookup_insert_ne. }
  destruct H1 as (Hc & Hev & Hrest).
  assert (Hplain :
    (forall other, other <> toLowerCase name ->
       commands s1 !! other = commands s !! other) /\
    List.filter (fun b => negb (String.eqb (b_namespace b) "hotkey"))
      (events s1) =
    List.filter (fun b => negb (String.eqb (b_namespace b) "hotkey"))
      (events s) /\
    editor s1 = editor s /\ element_value s1 = element_value s /\
    mode s1 = mode s /\ options s1 = options s)
    by (split; [exact Hc|]; split; [now rewrite Hev|exact Hrest]).
  destruct command as [f|exec own]; [exact Hplain|].
  cbv zeta. destruct (hotkeys_or _ own) as [h|]; [|exact Hplain].
  destruct (truthy_hotkeys _); [|exact Hplain].
  unfold registerHotkeyToCommand. cbn [commands events editor element_value
    mode options set_events].
  split; [exact Hc|]. split; [|exact Hrest].
  now rewrite other_namespaces_on, other_namespaces_off, Hev.
Qed.

Lemma registerCommand_leaves_the_rest_witness :
  let P := Sample.platform0 in
  let s :=
    set_events [Binding "change" "" (Sample.returning VUndef)]
      (registerCommand P "italic" (CmdFunction (Sample.returning VUndef))
         Sample.instance0) in
  let s' :=
    registerCommand P "Bold"
      (CmdObject (Sample.returning VUndef) (Some (HkString "ctrl+b"))) s in
  commands s' !! "italic" = commands s !! "italic" /\
  List.filter (fun b => negb (String.eqb (b_namespace b) "hotkey"))
    (events s') = events s /\
  List.length (events s') = 2.
Proof.
  intros P s s'.
  destruct (registerCommand_leaves_the_rest P "Bold"
              (CmdObject (Sample.returning VUndef)
                 (Some (HkString "ctrl+b"))) s) as (Hc & Hev & _).
  split; [apply Hc; discriminate|]. split; [exact Hev|reflexivity].
Defined.

(** X14.  Binding hotkeys a second time replaces the first binding: after
    [registerHotkeyToCommand(h, c1)] then [registerHotkeyToCommand(h, c2)]
    the instance is exactly what [registerHotkeyToCommand(h, c2)] alone
    would have made it, so no trace of the binding to [c1] is left. *)
Theorem registerHotkeyToCommand_rebinds (P : platform) (h : hotkeys)
    (c1 c2 : string) (s : state) :
  registerHotkeyToCommand P h c2 (registerHotkeyToCommand P h c1 s) =
    registerHotkeyToCommand P h c2 s.
Proof.
  unfold registerHotkeyToCommand. cbn [events set_events].
  rewrite events_off_on. now destruct s.
Qed.

Lemma registerHotkeyToCommand_rebinds_witness :
  let P := Sample.platform0 in
  let h := HkArray ["ctrl+b"; "cmd+b"] in
  registerHotkeyToCommand P h "strong"
    (registerHotkeyToCommand P h "bold" Sample.instance0) =
    registerHotkeyToCommand P h "strong" Sample.instance0 /\
  List.length
    (events (registerHotkeyToCommand P h "strong"
               (registerHotkeyToCommand P h "bold" Sample.instance0))) = 2.
Proof.
  intros P h. split; [|reflexivity].
  apply (registerHotkeyToCommand_rebinds P h "bold" "strong"
           Sample.instance0).
Defined.

(** The subscriptions of a key after it was bound as the only hotkey of a
    command, when nothing else listens to the key. *)
Lemma handlers_of_hotkey P k c s :
  let key := normalizeKeyAliases P k in
  Forall (fun b => b_event b = key -> b_namespace b = "hotkey") (events s) ->
  handlers_for key (registerHotkeyToCommand P (HkString k) c s) =
    [hotkey_handler c].
Proof.
  intros key Hall. unfold handlers_for, registerHotkeyToCommand, events_on,
    shortcuts. cbn [events set_events asArray List.map].
  fold key. rewrite List.filter_app. cbn [List.filter b_event].
  rewrite String.eqb_refl.
  assert (H : List.filter (fun b => String.eqb (b_event b) key)
                (events_off [key] "hotkey" (events s)) = []).
  { unfold events_off. induction Hall as [|b bus Hb _ IH]; [reflexivity|].
    cbn [List.filter existsb]. rewrite orb_false_r.
    destruct (String.eqb_spec (b_event b) key) as [E|E].
    - rewrite (Hb E), String.eqb_refl. cbn [andb negb]. exact IH.
    - cbn [andb negb List.filter].
      apply String.eqb_neq in E. now rewrite E. }
  now rewrite H.
Qed.

(** X15.  A hotkey runs its command through [execCommand].  After
    [registerHotkeyToCommand(k, c)], when nothing else listens to the
    normalised key, firing the key does what [execCommand(c)] does and
    answers with its result; so [beforeCommand] gets its say, and on a
    readonly instance the key does nothing at all, unless the command is
    [selectall]. *)
Theorem hotkey_runs_command (P : platform) (n : nat) (k c : string)
    (args : list jsval) (s : state) :
  let key := normalizeKeyAliases P k in
  let s' := registerHotkeyToCommand P (HkString k) c s in
  Forall (fun b => b_event b = key -> b_namespace b = "hotkey") (events s) ->
  fire P (run P (S n)) key args s' =
    (let '(t, r) := execCommand P (run P n) c VUndef VUndef s' in
     (OFire key args :: t,
      match r with
      | Ok v s2 => Ok (fire_result P VUndef v) s2
      | Exn msg s2 => Exn msg s2
      | Fuel => Fuel
      end)) /\
  (getReadOnly s = true -> c <> "selectall" ->
   fire P (run P (S n)) key args s' =
     ([OFire key args], Ok (fire_result P VUndef VUndef) s')).
Proof.
  intros key s' Hall.
  assert (E : fire P (run P (S n)) key args s' =
    (let '(t, r) := execCommand P (run P n) c VUndef VUndef s' in
     (OFire key args :: t,
      match r with
      | Ok v s2 => Ok (fire_result P VUndef v) s2
      | Exn msg s2 => Exn msg s2
      | Fuel => Fuel
      end))).
  { unfold fire. rewrite emit_bind, gets_bind.
    subst s' key. rewrite (handlers_of_hotkey P k c s Hall).
    cbn [run_handlers hotkey_handler run_script run step].
    cbv [mbind M_bind bind mret M_ret ret].
    destruct (execCommand P (run P n) c VUndef VUndef _)
      as [t [v s2|msg s2|]]; cbn [app]; now rewrite ?app_nil_r. }
  split; [exact E|].
  intros Hro Hc. rewrite E. unfold execCommand.
  rewrite gets_bind.
  assert (Hro' : readonly (options s') = true) by exact Hro.
  apply String.eqb_neq in Hc. now rewrite Hro', Hc.
Qed.

Lemma hotkey_runs_command_witness :
  let P := Sample.platform0 in
  let s := registerHotkeyToCommand P (HkString "Ctrl+B") "bold" in
  fst (fire P (run P 1) "ctrl+b" [] (s Sample.instance0)) =
    [OFire "ctrl+b" [];
     OFire "beforeCommand" [VStr "bold"; VFalse; VNull];
     OFocus; ONative "bold" VFalse VNull;
     OFire "afterCommand" [VStr "bold"; VFalse; VNull];
     OFire "beforeSetValueToEditor" [VUndef];
     OFire "beforeGetValueFromEditor" [];
     OFire "afterGetValueFromEditor" [VStr ""]] /\
  fire P (run P 1) "ctrl+b" [] (s Sample.readonly0) =
    ([OFire "ctrl+b" []], Ok VUndef (s Sample.readonly0)).
Proof.
  intros P s.
  destruct (hotkey_runs_command P 0 "Ctrl+B" "bold" [] Sample.instance0
              ltac:(constructor)) as (E & _).
  destruct (hotkey_runs_command P 0 "Ctrl+B" "bold" [] Sample.readonly0
              ltac:(constructor)) as (_ & R).
  split.
  - subst s. cbv beta. cbn [normalizeKeyAliases P Sample.platform0] in E.
    change (toLowerCase "Ctrl+B") with "ctrl+b" in E.
    rewrite E. reflexivity.
  - exact (R eq_refl ltac:(discriminate)).
Defined.



(** ** Modes *)

Lemma strict_eq_num (a b : Z) : strict_eq (VNum a) (VNum b) = Z.eqb a b.
Proof.
  cbn. destruct (Z.eqb_spec a b) as [->|Hne].
  - now apply bool_decide_eq_true_2.
  - apply bool_decide_eq_false_2. congruence.
Qed.

Lemma checked_mode_num (z : Z) :
  checked_mode (VNum z) =
    if Z.eqb z MODE_SOURCE || Z.eqb z MODE_WYSIWYG || Z.eqb z MODE_SPLIT
    then z else MODE_WYSIWYG.
Proof.
  unfold checked_mode, inArray. cbn [existsb].
  now rewrite !strict_eq_num, orb_false_r, orb_assoc.
Qed.

Lemma checked_mode_is_mode (requested : jsval) :
  is_mode (checked_mode requested).
Proof.
  rewrite checked_mode_legal. unfold legal_mode, is_mode.
  destruct requested; cbn; auto.
  destruct (decide _) as [H|H]; cbn; auto.
Qed.

Lemma class_of_checked_mode (requested : jsval) :
  modeClasses !! Z.to_nat (checked_mode requested - 1) =
    class_of_mode (checked_mode requested).
Proof.
  destruct (checked_mode_is_mode requested) as [-> | [-> | ->]];
    reflexivity.
Qed.

(** The instance [setMode] builds once the [beforeSetMode] round has let
    it through. *)
Lemma mode_written_coherent (new : Z) (s1 : state) (b : bool) :
  is_mode new ->
  modeClasses !! Z.to_nat (new - 1) = class_of_mode new ->
  let s2 :=
    set_view (set_mode_class (modeClasses !! Z.to_nat (new - 1)) (view
      (if b then set_stored_mode (Some new) (set_mode new s1)
       else set_mode new s1)))
      (if b then set_stored_mode (Some new) (set_mode new s1)
       else set_mode new s1) in
  mode_coherent s2 /\ getMode s2 = new /\
  (b = true -> stored_mode s2 = Some new) /\
  options s2 = options s1.
Proof.
  intros Hm Hc s2. subst s2. unfold mode_coherent, getMode.
  destruct b; cbn; rewrite Hc; repeat split; auto; discriminate.
Qed.



(** The instance after a [setMode] that selected the mode [new]. *)
Lemma setMode_quiet P rec m s :
  handlers_for "beforeSetMode" s = [] ->
  handlers_for "afterSetMode" s = [] ->
  let requested := parseInt10 (mode_toString m) in
  let new := checked_mode requested in
  exists s',
    setMode P rec m s =
      (OFire "beforeSetMode" [requested] ::
       (if Z.eqb (getMode s) new then [] else [OFire "afterSetMode" []]),
       Ok tt s') /\
    getMode s' = new /\
    mode_class (view s') = class_of_mode new /\
    events s' = events s /\ options s' = options s /\
    editor s' = editor s /\ element_value s' = element_value s.
Proof.
  intros Hb Ha requested new. unfold setMode.
  rewrite gets_bind.
  rewrite (bind_ok _ _ _ _ _ _
             (fire_with_payload_quiet P rec _ requested s Hb)).
  change (strict_eq VUndef VFalse) with false. cbn beta iota.
  fold requested new.
  rewrite modify_bind, gets_bind. cbn [options set_mode].
  pose proof (class_of_checked_mode requested) as Hclass. fold new in Hclass.
  destruct (saveModeInStorage (options s));
    (repeat (rewrite modify_bind || rewrite ret_bind); rewrite gets_bind;
     unfold getMode at 2; cbn [mode set_view set_mode set_stored_mode];
     destruct (Z.eqb (getMode s) new); cbn [negb];
     [ eexists; split; [reflexivity|]; cbn; now rewrite Hclass
     | match goal with
       | |- context [(fire P rec "afterSetMode" [] ≫= _) ?s2] =>
           rewrite (bind_ok _ _ _ _ _ _
                      (fire_quiet P rec "afterSetMode" [] s2 Ha))
       end;
       eexists; split; [reflexivity|]; cbn; now rewrite Hclass ]).
Qed.

(** The mode [toggleMode] asks for, once validated by [setMode]. *)
Lemma toggled_target (useSplitMode : bool) (current : Z) :
  checked_mode
    (parseInt10
       (mode_toString
          (ModeNumber
             (if inArray (VNum (current + 1))
                   [VNum MODE_SOURCE; VNum MODE_WYSIWYG;
                    VNum (if useSplitMode then MODE_SPLIT else 9)]
              then (current + 1)%Z
              else MODE_WYSIWYG)))) =
    toggled useSplitMode current.
Proof.
  cbn [mode_toString]. rewrite parseInt10_number, checked_mode_num.
  unfold inArray, toggled. cbn [existsb]. rewrite !strict_eq_num.
  unfold MODE_SOURCE, MODE_WYSIWYG, MODE_SPLIT.
  destruct useSplitMode;
    repeat match goal with
    | |- context [Z.eqb ?a ?b] => destruct (Z.eqb_spec a b)
    end; cbn in *; lia.
Qed.

(** One step of [toggleMode] on an instance without handlers for the
    two events of [setMode]. *)
Lemma toggle_step P rec (useSplitMode : bool) s :
  handlers_for "beforeSetMode" s = [] ->
  handlers_for "afterSetMode" s = [] ->
  exists t s',
    JoditRest.toggleMode P rec useSplitMode s = (t, Ok tt s') /\
    getMode s' = toggled useSplitMode (getMode s) /\
    events s' = events s.
Proof.
  intros Hb Ha. unfold JoditRest.toggleMode. rewrite gets_bind.
  destruct (setMode_quiet P rec
              (ModeNumber
                 (if inArray (VNum (getMode s + 1))
                       [VNum MODE_SOURCE; VNum MODE_WYSIWYG;
                        VNum (if useSplitMode then MODE_SPLIT else 9)]
                  then (getMode s + 1)%Z
                  else MODE_WYSIWYG)) s Hb Ha)
    as (s' & E & Hm & _ & Hev & _).
  cbv zeta in E, Hm. rewrite toggled_target in E, Hm.
  eexists _, s'. split; [exact E|]. now split.
Qed.

(** X18.  [toggleMode] steps through the modes: from WYSIWYG to SOURCE,
    from SOURCE to SPLIT when the split mode is in use, and to WYSIWYG in
    every other case, so never to SPLIT when the split mode is not in use.
    This is for an instance on which [beforeSetMode] and [afterSetMode]
    have no handler; the values and the subscriptions are untouched and
    [afterSetMode] is fired exactly when the mode has changed. *)
Theorem toggleMode_steps (P : platform) (rec : call -> M jsval)
    (useSplitMode : bool) (s : state) :
  handlers_for "beforeSetMode" s = [] ->
  handlers_for "afterSetMode" s = [] ->
  exists t s',
    JoditRest.toggleMode P rec useSplitMode s = (t, Ok tt s') /\
    getMode s' = toggled useSplitMode (getMode s) /\
    (useSplitMode = false -> getMode s' <> MODE_SPLIT) /\
    mode_class (view s') = class_of_mode (getMode s') /\
    (In (OFire "afterSetMode" []) t <-> getMode s' <> getMode s) /\
    events s' = events s /\
    editor s' = editor s /\ element_value s' = element_value s.
Proof.
  intros Hb Ha. unfold JoditRest.toggleMode. rewrite gets_bind.
  destruct (setMode_quiet P rec
              (ModeNumber
                 (if inArray (VNum (getMode s + 1))
                       [VNum MODE_SOURCE; VNum MODE_WYSIWYG;
                        VNum (if useSplitMode then MODE_SPLIT else 9)]
                  then (getMode s + 1)%Z
                  else MODE_WYSIWYG)) s Hb Ha)
    as (s' & E & Hm & Hc & Hev & _ & Hed & Hel).
  cbv zeta in E, Hm, Hc. rewrite toggled_target in E, Hm, Hc.
  eexists _, s'. split; [exact E|]. rewrite Hm.
  split; [reflexivity|]. split.
  - intros ->. unfold toggled, MODE_WYSIWYG, MODE_SOURCE, MODE_SPLIT.
    rewrite andb_false_r. destruct (Z.eqb (getMode s) 1); discriminate.
  - split; [exact Hc|]. split; [|now repeat split].
    destruct (Z.eqb_spec (getMode s) (toggled useSplitMode (getMode s)))
      as [Heq|Hne]; split.
    + intros [H|[]]. discriminate.
    + intros H. now elim H.
    + intros _. congruence.
    + intros _. right. now left.
Qed.

Lemma toggleMode_steps_witness :
  let P := Sample.platform0 in
  exists t s',
    JoditRest.toggleMode P (run P 0) false Sample.instance0 = (t, Ok tt s') /\
    getMode s' = MODE_SOURCE /\
    mode_class (view s') = Some "jodit_source_mode".
Proof.
  intros P.
  destruct (toggleMode_steps P (run P 0) false Sample.instance0
              eq_refl eq_refl) as (t & s' & E & Hm & _ & Hc & _).
  exists t, s'. split; [exact E|]. split; [exact Hm|].
  rewrite Hc, Hm. reflexivity.
Defined.

(** X19.  Toggling comes back to where it started: on an instance in one
    of the three modes, without handlers for the two events of [setMode],
    three calls of [toggleMode] with the split mode in use end in the mode
    they started from; without the split mode, two calls do, from WYSIWYG
    and from SOURCE. *)
Theorem toggleMode_cycles (P : platform) (rec : call -> M jsval)
    (s : state) :
  handlers_for "beforeSetMode" s = [] ->
  handlers_for "afterSetMode" s = [] ->
  is_mode (getMode s) ->
  (exists t s',
     (JoditRest.toggleMode P rec true ;;
      JoditRest.toggleMode P rec true ;;
      JoditRest.toggleMode P rec true) s = (t, Ok tt s') /\
     getMode s' = getMode s) /\
  (getMode s <> MODE_SPLIT ->
   exists t s',
     (JoditRest.toggleMode P rec false ;;
      JoditRest.toggleMode P rec false) s = (t, Ok tt s') /\
     getMode s' = getMode s).
Proof.
  intros Hb Ha Hmode.
  assert (Hstep : forall b s0,
            events s0 = events s ->
            exists t s',
              JoditRest.toggleMode P rec b s0 = (t, Ok tt s') /\
              getMode s' = toggled b (getMode s0) /\
              events s' = events s).
  { intros b s0 Hev.
    destruct (toggle_step P rec b s0) as (t & s' & E & Hm & Hev');
      [unfold handlers_for in *; now rewrite Hev..|].
    exists t, s'. split; [exact E|]. split; [exact Hm|congruence]. }
  split.
  - destruct (Hstep true s eq_refl) as (t1 & s1 & E1 & M1 & Ev1).
    destruct (Hstep true s1 Ev1) as (t2 & s2 & E2 & M2 & Ev2).
    destruct (Hstep true s2 Ev2) as (t3 & s3 & E3 & M3 & _).
    rewrite (bind_ok _ _ _ _ _ _ E1), (bind_ok _ _ _ _ _ _ E2), E3.
    eexists _, s3. split; [reflexivity|].
    rewrite M3, M2, M1.
    destruct Hmode as [-> | [-> | ->]]; reflexivity.
  - intros Hns.
    destruct (Hstep false s eq_refl) as (t1 & s1 & E1 & M1 & Ev1).
    destruct (Hstep false s1 Ev1) as (t2 & s2 & E2 & M2 & _).
    rewrite (bind_ok _ _ _ _ _ _ E1), E2.
    eexists _, s2. split; [reflexivity|].
    rewrite M2, M1.
    destruct Hmode as [-> | [-> | E]]; [reflexivity..|]. now elim Hns.
Qed.

Lemma toggleMode_cycles_witness :
  let P := Sample.platform0 in
  exists t s',
    (JoditRest.toggleMode P (run P 0) true ;;
     JoditRest.toggleMode P (run P 0) true ;;
     JoditRest.toggleMode P (run P 0) true) Sample.instance0 =
      (t, Ok tt s') /\
    getMode s' = MODE_WYSIWYG.
Proof.
  intros P.
  destruct (toggleMode_cycles P (run P 0) Sample.instance0 eq_refl eq_refl
              ltac:(now left)) as ((t & s' & E & Hm) & _).
  exists t, s'. split; [exact E|exact Hm].
Defined.

(** ** Lock and selection *)

(** X20.  Locking and unlocking the editor is a round trip.  On a live,
    unlocked instance [lock(name)] with a name that is not empty (the
    default [any] included) saves the selection and marks the editable
    region disabled; the lock is then held by that name and by no other;
    the [unlock()] that follows restores the selection, removes the mark
    and leaves the panel as it was before the lock. *)
Theorem lock_unlock_round_trip (name : option string) (s : state)
    (html : string) :
  editor s = Some html ->
  Panel.isLocked (panel s) = false ->
  Panel.lock_name name <> "" ->
  exists s1 s2,
    lock name s = ([OSelectionSave], Ok true s1) /\
    Panel.isLocked (panel s1) = true /\
    editor_disabled (view s1) = true /\
    (forall who,
       Panel.isLockedNotBy who (panel s1) =
         negb (String.eqb (Panel.lock_name name) who)) /\
    unlock s1 = ([OSelectionRestore], Ok true s2) /\
    editor_disabled (view s2) = false /\
    panel s2 = panel s.
Proof.
  intros He Hfree Hname. apply String.eqb_neq in Hname.
  unfold lock. run_method. unfold Panel.lock. rewrite Hfree. cbn.
  rewrite He. cbn. eexists _, _. split; [reflexivity|].
  unfold Panel.isLockedNotBy, Panel.isLocked. cbn. rewrite Hname. cbn.
  split; [reflexivity|]. split; [reflexivity|]. split; [reflexivity|].
  unfold unlock. run_method. unfold Panel.unlock, Panel.isLocked. cbn.
  rewrite Hname. cbn. rewrite He. cbn.
  split; [reflexivity|]. split; [reflexivity|].
  unfold Panel.isLocked in Hfree. apply negb_false_iff in Hfree.
  apply String.eqb_eq in Hfree. destruct (panel s) as [who full d box].
  cbn in *. now subst who.
Qed.

Lemma lock_unlock_round_trip_witness :
  exists s1 s2,
    lock None Sample.instance0 = ([OSelectionSave], Ok true s1) /\
    Panel.isLockedNotBy "any" (panel s1) = false /\
    Panel.isLockedNotBy "popup" (panel s1) = true /\
    unlock s1 = ([OSelectionRestore], Ok true s2) /\
    panel s2 = Panel.fresh.
Proof.
  destruct (lock_unlock_round_trip None Sample.instance0 "" eq_refl eq_refl
              ltac:(discriminate))
    as (s1 & s2 & L & _ & _ & Hby & U & _ & Hp).
  exists s1, s2. split; [exact L|].
  split; [now rewrite Hby|]. split; [now rewrite Hby|].
  split; [exact U|exact Hp].
Defined.

(** X21.  [lock('')] does not lock.  On a live, unlocked instance it
    answers true, saves the selection and marks the editable region
    disabled, but the holder it records is the empty string, which is how
    the panel says it is unlocked: [isLocked()] stays false, the
    [unlock()] that follows answers false and does nothing, so the mark
    stays and the selection is not restored, and any later [lock] is
    granted as well. *)
Theorem lock_with_empty_name_does_not_lock (s : state) (html : string) :
  editor s = Some html ->
  Panel.isLocked (panel s) = false ->
  exists s1,
    lock (Some "") s = ([OSelectionSave], Ok true s1) /\
    Panel.isLocked (panel s1) = false /\
    editor_disabled (view s1) = true /\
    unlock s1 = ([], Ok false s1) /\
    (forall b, fst (Panel.lock b (panel s1)) = true).
Proof.
  intros He Hfree.
  unfold lock. run_method. unfold Panel.lock. rewrite Hfree. cbn.
  rewrite He. cbn. eexists. split; [reflexivity|].
  split; [reflexivity|]. split; [reflexivity|].
  split; [|reflexivity]. reflexivity.
Qed.

Lemma lock_with_empty_name_does_not_lock_witness :
  exists s1,
    lock (Some "") Sample.instance0 = ([OSelectionSave], Ok true s1) /\
    editor_disabled (view s1) = true /\
    unlock s1 = ([], Ok false s1).
Proof.
  destruct (lock_with_empty_name_does_not_lock Sample.instance0 ""
              eq_refl eq_refl) as (s1 & L & _ & D & U & _).
  now exists s1.
Defined.

(** ** Readonly *)

Lemma setReadOnly_changed P rec b s :
  __wasReadOnly s <> b ->
  let s2 :=
    (fun s => match editor s with
              | Some _ =>
                  set_view (set_contenteditable (negb b) (view s)) s
              | None => s
              end)
      (set_options (Jodit.set_readonly b (options (set_wasReadOnly b s)))
         (set_wasReadOnly b s)) in
  setReadOnly P rec b s =
    (let '(t, r) := fire P rec "readonly" [VBool b] s2 in
     (t, match r with
         | Ok _ s' => Ok tt s'
         | Exn msg s' => Exn msg s'
         | Fuel => Fuel
         end)).
Proof.
  intros Hne s2. unfold setReadOnly. rewrite gets_bind.
  assert (E : Bool.eqb (__wasReadOnly s) b = false)
    by (apply Bool.eqb_false_iff; exact Hne).
  rewrite E. rewrite !modify_bind. fold s2.
  cbv [mbind M_bind bind mret M_ret ret].
  destruct (fire P rec "readonly" [VBool b] s2) as [t [a s'|msg s'|]];
    cbn; now rewrite ?app_nil_r.
Qed.



(** * Loading scripts and styles *)

Lemma alter_at_end {A} (f : A -> A) (l : list A) (a : A) :
  alter f (List.length l) (l ++ [a])%list = (l ++ [f a])%list.
Proof. induction l as [|b l IH]; cbn; [reflexivity|]. now rewrite IH. Qed.

(** A wrapped loader asked again for an address it was asked for. *)
Lemma cacheLoaders_hit (loader loader' : Loader.Loader) url d d' w :
  let r := Loader.cacheLoaders loader url d w in
  Loader.cacheLoaders loader' url d' (snd r) = r.
Proof.
  unfold Loader.cacheLoaders.
  destruct (Loader.alreadyLoadedList w !! url) as [p|] eqn:E; cbn.
  - now rewrite E.
  - destruct (loader url d w) as [p w1]. cbn.
    now rewrite lookup_insert_eq.
Qed.

(** The script loader on an address it was not asked for yet. *)
Lemma appendScriptAsync_miss completeUrl url doc w :
  Loader.alreadyLoadedList w !! url = None ->
  Loader.appendScriptAsync completeUrl url doc w =
    (Loader.promises w,
     {| Loader.alreadyLoadedList :=
          <[url := Loader.promises w]> (Loader.alreadyLoadedList w);
        Loader.promises := S (Loader.promises w);
        Loader.elements :=
          (Loader.elements w ++
           [Loader.Element "script"
              (<["src" := completeUrl url]>
                 (<["type" := "text/javascript"]>
                    (<["className" := ""]> ∅)))
              [("load", Loader.Resolve (Loader.promises w));
               ("error", Loader.Reject (Loader.promises w))]])%list;
        Loader.bodies :=
          <[Loader.document_or_default doc :=
              (Loader.body (Loader.document_or_default doc) w ++
               [List.length (Loader.elements w)])%list]>
            (Loader.bodies w) |}).
Proof.
  intros Hmiss.
  unfold Loader.appendScriptAsync, Loader.cacheLoaders. rewrite Hmiss.
  unfold Loader.new_Promise, Loader.appendScript, Loader.createElement,
    Loader.setProp, Loader.addEventListener, Loader.appendChild, Loader.body.
  cbn. now rewrite !alter_at_end.
Qed.

(** The style loader on an address it was not asked for yet. *)
Lemma appendStyleAsync_miss completeUrl url doc w :
  Loader.alreadyLoadedList w !! url = None ->
  Loader.appendStyleAsync completeUrl url doc w =
    (Loader.promises w,
     {| Loader.alreadyLoadedList :=
          <[url := Loader.promises w]> (Loader.alreadyLoadedList w);
        Loader.promises := S (Loader.promises w);
        Loader.elements :=
          (Loader.elements w ++
           [Loader.Element "link"
              (<["href" := completeUrl url]>
                 (<["crossOrigin" := "anonymous"]>
                    (<["media" := "all"]>
                       (<["rel" := "stylesheet"]> ∅))))
              [("load",
                Loader.ResolveWith (Loader.promises w)
                  (List.length (Loader.elements w)));
               ("error", Loader.Reject (Loader.promises w))]])%list;
        Loader.bodies :=
          <[Loader.document_or_default doc :=
              (Loader.body (Loader.document_or_default doc) w ++
               [List.length (Loader.elements w)])%list]>
            (Loader.bodies w) |}).
Proof.
  intros Hmiss.
  unfold Loader.appendStyleAsync, Loader.cacheLoaders. rewrite Hmiss.
  unfold Loader.new_Promise, Loader.createElement,
    Loader.setProp, Loader.addEventListener, Loader.appendChild, Loader.body.
  cbn. now rewrite !alter_at_end.
Qed.

(** X23.  The two loaders share one cache, keyed by the address alone.
    Once an address has been asked for, as a script or as a style and for
    whichever document, asking for it again, as a script or as a style and
    for whichever document, answers the promise of the first request and
    touches nothing: no element is created or appended. *)
Theorem loaders_share_one_cache (completeUrl : string -> string)
    (url : string) (d d' : option string) (w : Loader.world) :
  let script := Loader.appendScriptAsync completeUrl url d w in
  let style := Loader.appendStyleAsync completeUrl url d w in
  Loader.appendScriptAsync completeUrl url d' (snd script) = script /\
  Loader.appendStyleAsync completeUrl url d' (snd script) = script /\
  Loader.appendStyleAsync completeUrl url d' (snd style) = style /\
  Loader.appendScriptAsync completeUrl url d' (snd style) = style.
Proof.
  intros script style. subst script style.
  unfold Loader.appendScriptAsync, Loader.appendStyleAsync.
  repeat split; apply cacheLoaders_hit.
Qed.

Lemma loaders_share_one_cache_witness :
  let cu := String.append "https://cdn/" in
  let first :=
    Loader.appendScriptAsync cu "ace.js" None (Loader.World ∅ 0 [] ∅) in
  Loader.appendStyleAsync cu "ace.js" (Some "iframe") (snd first) = first /\
  List.length (Loader.elements (snd first)) = 1 /\
  Loader.body "iframe" (snd first) = [].
Proof.
  intros cu first.
  destruct (loaders_share_one_cache cu "ace.js" None (Some "iframe")
              (Loader.World ∅ 0 [] ∅)) as (_ & H & _).
  split; [exact H|]. split; reflexivity.
Defined.

(** X24.  The first request for an address creates exactly one element
    and appends it at the end of the body of the document asked for (of
    [document] when none is given): a [script] with the completed address
    as [src], or a [link] to a stylesheet with the completed address as
    [href]; its [load] listener resolves, and its [error] listener
    rejects, the promise returned, which is a new one.  The elements
    created before and the bodies of the other documents are untouched,
    and the cache gains the address and nothing else. *)
Theorem first_request_appends_one_element (completeUrl : string -> string)
    (script : bool) (url : string) (doc : option string)
    (w : Loader.world) :
  Loader.alreadyLoadedList w !! url = None ->
  let d := Loader.document_or_default doc in
  let p := Loader.promises w in
  let el := List.length (Loader.elements w) in
  exists w' created,
    load completeUrl (script, url, doc) w = (p, w') /\
    Loader.elements w' = (Loader.elements w ++ [created])%list /\
    Loader.body d w' = (Loader.body d w ++ [el])%list /\
    (forall d', d' <> d -> Loader.body d' w' = Loader.body d' w) /\
    Loader.promises w' = S p /\
    Loader.alreadyLoadedList w' = <[url := p]> (Loader.alreadyLoadedList w) /\
    Loader.listeners created =
      [("load", if script then Loader.Resolve p else Loader.ResolveWith p el);
       ("error", Loader.Reject p)] /\
    Loader.tagName created = (if script then "script" else "link") /\
    Loader.props created !! (if script then "src" else "href") =
      Some (completeUrl url).
Proof.
  intros Hmiss d p el. unfold load. destruct script.
  - rewrite (appendScriptAsync_miss completeUrl url doc w Hmiss).
    eexists _, _. split; [reflexivity|]. cbn.
    split; [reflexivity|]. unfold Loader.body at 1. cbn.
    split; [now rewrite lookup_insert_eq|]. split.
    + intros d' Hd. unfold Loader.body. cbn.
      now rewrite lookup_insert_ne
        by (intros H; apply Hd; first [exact H | symmetry; exact H]).
    + now repeat split.
  - rewrite (appendStyleAsync_miss completeUrl url doc w Hmiss).
    eexists _, _. split; [reflexivity|]. cbn.
    split; [reflexivity|]. unfold Loader.body at 1. cbn.
    split; [now rewrite lookup_insert_eq|]. split.
    + intros d' Hd. unfold Loader.body. cbn.
      now rewrite lookup_insert_ne
        by (intros H; apply Hd; first [exact H | symmetry; exact H]).
    + now repeat split.
Qed.

Lemma first_request_appends_one_element_witness :
  let w0 := Loader.World ∅ 0 [] ∅ in
  exists w',
    Loader.appendScriptAsync (String.append "https://cdn/") "ace.js" None w0 =
      (0, w') /\
    Loader.body "document" w' = [0] /\
    Loader.elements w' !! 0 =
      Some (Loader.Element "script"
              (<["src" := "https://cdn/ace.js"]>
                 (<["type" := "text/javascript"]>
                    (<["className" := ""]> ∅)))
              [("load", Loader.Resolve 0); ("error", Loader.Reject 0)]).
Proof.
  intros w0.
  destruct (first_request_appends_one_element (String.append "https://cdn/")
              true "ace.js" None w0 eq_refl)
    as (w' & created & E & _ & Hb & _).
  exists w'. split; [exact E|]. split; [exact Hb|].
  cbn in E. injection E as <-. reflexivity.
Defined.

(** A request leaves the entries of the cache alone. *)
Lemma load_keeps_entries completeUrl (r : request) w url p :
  Loader.alreadyLoadedList w !! url = Some p ->
  Loader.alreadyLoadedList (snd (load completeUrl r w)) !! url = Some p.
Proof.
  intros Hin. destruct r as [[script url'] doc].
  destruct (Loader.alreadyLoadedList w !! url') as [p'|] eqn:E.
  - assert (Hhit : load completeUrl (script, url', doc) w = (p', w)).
    { unfold load, Loader.appendScriptAsync, Loader.appendStyleAsync,
        Loader.cacheLoaders. destruct script; now rewrite E. }
    now rewrite Hhit.
  - assert (Hne : url' <> url) by congruence.
    unfold load. destruct script.
    + rewrite (appendScriptAsync_miss completeUrl url' doc w E). cbn.
      now rewrite lookup_insert_ne.
    + rewrite (appendStyleAsync_miss completeUrl url' doc w E). cbn.
      now rewrite lookup_insert_ne.
Qed.

(** X25.  An address is loaded once.  Once the cache holds a promise for
    an address, whatever requests follow, for scripts or styles, for this
    or other addresses and documents, the cache still holds that promise
    for the address, and a request for the address answers it without
    changing anything. *)
Theorem address_is_loaded_once (completeUrl : string -> string)
    (url : string) (p : nat) (rs : list request) (w : Loader.world) :
  Loader.alreadyLoadedList w !! url = Some p ->
  let w' := load_all completeUrl rs w in
  Loader.alreadyLoadedList w' !! url = Some p /\
  forall script doc, load completeUrl (script, url, doc) w' = (p, w').
Proof.
  intros Hin w'.
  assert (Hkept : Loader.alreadyLoadedList w' !! url = Some p).
  { subst w'. revert w Hin. induction rs as [|r rs IH]; intros w Hin;
      [exact Hin|].
    cbn [load_all fold_left]. apply IH.
    now apply load_keeps_entries. }
  split; [exact Hkept|]. intros script doc.
  unfold load, Loader.appendScriptAsync, Loader.appendStyleAsync,
    Loader.cacheLoaders. destruct script; now rewrite Hkept.
Qed.

Lemma address_is_loaded_once_witness :
  let cu := String.append "https://cdn/" in
  let w := snd (Loader.appendScriptAsync cu "ace.js" None
                  (Loader.World ∅ 0 [] ∅)) in
  let w' :=
    load_all cu
      [(false, "theme.css", None); (true, "mode.js", Some "iframe");
       (false, "ace.js", Some "iframe")] w in
  load cu (true, "ace.js", Some "iframe") w' = (0, w') /\
  Loader.body "iframe" w' = [2].
Proof.
  intros cu w w'.
  destruct (address_is_loaded_once cu "ace.js" 0
              [(false, "theme.css", None); (true, "mode.js", Some "iframe");
               (false, "ace.js", Some "iframe")] w eq_refl) as (_ & H).
  split; [apply H|reflexivity].
Defined.

(** * Options taken from attributes *)

Lemma apply_attributes_skips {other} defaults given attributes
    (options : gmap string (Attributes.setting other)) name :
  (Attributes.takes_attribute defaults given name = false \/
   name ∉ List.map fst attributes) ->
  Attributes.apply_attributes defaults given attributes options !! name =
    options !! name.
Proof.
  unfold Attributes.apply_attributes. revert options.
  induction attributes as [|[n text] attributes IH]; intros options H;
    [reflexivity|].
  cbn [fold_left]. rewrite IH.
  - destruct (Attributes.takes_attribute defaults given n) eqn:E;
      [|reflexivity].
    apply lookup_insert_ne. intros ->. destruct H as [H|H].
    + congruence.
    + apply H. cbn. apply elem_of_cons. now left.
  - destruct H as [H|H]; [now left|right]. intros Hin. apply H.
    cbn. apply elem_of_cons. now right.
Qed.

(** X26.  The attributes of the source element fill in the options the
    caller left out, and only those.  An attribute sets the option of its
    name when the default options define that name and the options passed
    to the constructor do not; every other option is left as it was, so an
    option passed to the constructor always wins and an attribute that is
    no option is ignored.  For [readonly] and [disabled] the option
    becomes a boolean that is true exactly when the attribute is empty or
    [true], so [readonly="readonly"] switches it off; for any other name
    a text made of digits with at most one dot becomes a number and any
    other text stays the string. *)
Theorem attributes_fill_missing_options {other : Type}
    (defaults : gset string) (given : option (gset string))
    (attributes : list (string * string))
    (options : gmap string (Attributes.setting other)) :
  NoDup (List.map fst attributes) ->
  let options' :=
    Attributes.apply_attributes defaults given attributes options in
  (forall name text,
     (name, text) ∈ attributes ->
     Attributes.takes_attribute defaults given name = true ->
     options' !! name =
       Some (Attributes.FromAttribute
               (Attributes.from_attribute name text))) /\
  (forall name,
     Attributes.takes_attribute defaults given name = false \/
     name ∉ List.map fst attributes ->
     options' !! name = options !! name) /\
  (forall name names,
     given = Some names -> name ∈ names ->
     options' !! name = options !! name) /\
  (forall name text,
     name = "readonly" \/ name = "disabled" ->
     Attributes.from_attribute name text =
       Attributes.Boolean (String.eqb text "" || String.eqb text "true")) /\
  (forall name text,
     name <> "readonly" -> name <> "disabled" ->
     Attributes.from_attribute name text =
       if Attributes.numeric text then Attributes.Number text
       else Attributes.Text text).
Proof.
  intros Hnodup options'. subst options'.
  split; [|split; [|split; [|split]]].
  - intros name text Hin Htakes. revert options Hnodup Hin.
    unfold Attributes.apply_attributes.
    induction attributes as [|[n t] attributes IH];
      intros options Hnodup Hin; [now apply elem_of_nil in Hin|].
    cbn [List.map fst] in Hnodup. apply NoDup_cons in Hnodup as [Hn Hnodup].
    cbn [fold_left]. apply elem_of_cons in Hin as [[= -> ->]|Hin].
    + rewrite Htakes.
      pose proof (apply_attributes_skips defaults given attributes
                    (<[n := Attributes.FromAttribute
                              (Attributes.from_attribute n t)]>
                       options) n (or_intror Hn)) as Hskip.
      unfold Attributes.apply_attributes in Hskip. rewrite Hskip.
      apply lookup_insert_eq.
    + now apply IH.
  - intros name. apply apply_attributes_skips.
  - intros name names -> Hin. apply apply_attributes_skips. left.
    unfold Attributes.takes_attribute.
    rewrite (bool_decide_eq_false_2 (name ∉ names)) by auto.
    apply andb_false_r.
  - intros name text [-> | ->]; unfold Attributes.from_attribute; cbn;
      now destruct (String.eqb text "" || String.eqb text "true").
  - intros name text Hr Hd. unfold Attributes.from_attribute.
    cbn [existsb]. apply String.eqb_neq in Hr, Hd.
    now rewrite Hr, Hd.
Qed.

Lemma attributes_fill_missing_options_witness :
  let defaults : gset string := {[ "readonly"; "disabled"; "height" ]} in
  let options' :=
    Attributes.apply_attributes (other := unit) defaults
      (Some {[ "disabled" ]})
      [("id", "editor"); ("readonly", "readonly"); ("disabled", "");
       ("height", "300")]
      {[ "disabled" := Attributes.Configured tt ]} in
  options' !! "readonly" =
    Some (Attributes.FromAttribute (Attributes.Boolean false)) /\
  options' !! "disabled" = Some (Attributes.Configured tt) /\
  options' !! "height" =
    Some (Attributes.FromAttribute (Attributes.Number "300")) /\
  options' !! "id" = None.
Proof.
  intros defaults options'.
  destruct (attributes_fill_missing_options (other := unit) defaults
              (Some {[ "disabled" ]})
              [("id", "editor"); ("readonly", "readonly"); ("disabled", "");
               ("height", "300")]
              {[ "disabled" := Attributes.Configured tt ]})
    as (Hset & Hskip & Hgiven & _).
  { apply (bool_decide_unpack _). vm_compute. exact I. }
  split; [|split; [|split]].
  - apply (Hset "readonly" "readonly");
      [apply (bool_decide_unpack _); vm_compute; exact I|reflexivity].
  - apply (Hgiven "disabled" {[ "disabled" ]}); [reflexivity|set_solver].
  - apply (Hset "height" "300");
      [apply (bool_decide_unpack _); vm_compute; exact I|reflexivity].
  - rewrite Hskip; [reflexivity|]. left. reflexivity.
Defined.

(** * The path of an element *)

(** ** Strings *)

Lemma append_cons (x : ascii) (a b : string) :
  String x a ++ b = String x (a ++ b).
Proof. reflexivity. Qed.

Lemma append_nil (b : string) : "" ++ b = b.
Proof. reflexivity. Qed.

Lemma no_char_app c (a b : string) :
  no_char c (a ++ b) = no_char c a && no_char c b.
Proof.
  induction a as [|x a IH]; rewrite ?append_cons, ?append_nil;
    cbn [no_char]; [reflexivity|].
  now rewrite IH, andb_assoc.
Qed.

Lemma no_char_uint c (d : Decimal.uint) :
  (forall k, digit_of c = Some k -> False) ->
  no_char c (NilEmpty.string_of_uint d) = true.
Proof.
  intros Hc.
  assert (Hne : forall x, digit_of x <> None -> Ascii.eqb x c = false).
  { intros x Hx. apply Ascii.eqb_neq. intros ->.
    destruct (digit_of c) as [k|] eqn:E; [now apply (Hc k)|now apply Hx]. }
  induction d; cbn [NilEmpty.string_of_uint no_char]; trivial;
    rewrite Hne by discriminate; exact IHd.
Qed.

Lemma no_char_number c (k : nat) :
  (forall z, digit_of c = Some z -> False) ->
  no_char c (number_toString (Z.of_nat (k + 1))) = true.
Proof.
  intros Hc. unfold number_toString.
  destruct (Z.of_nat (k + 1)) as [|p|p] eqn:E; try lia.
  cbn [Z.to_int NilZero.string_of_int NilZero.string_of_uint].
  pose proof (no_char_uint c (Pos.to_uint p) Hc) as H.
  destruct (Pos.to_uint p); try exact H.
  change (negb (Ascii.eqb "0" c) && true = true).
  destruct (Ascii.eqb_spec "0" c) as [<-|_]; [|reflexivity].
  now elim (Hc 0%Z).
Qed.

Lemma lower_ascii_slash (x : ascii) :
  Ascii.eqb x "/" = false -> Ascii.eqb (lower_ascii x) "/" = false.
Proof.
  destruct x as [[] [] [] [] [] [] [] []]; vm_compute; congruence.
Qed.

Lemma lower_ascii_bracket (x : ascii) :
  Ascii.eqb x "[" = false -> Ascii.eqb (lower_ascii x) "[" = false.
Proof.
  destruct x as [[] [] [] [] [] [] [] []]; vm_compute; congruence.
Qed.

Lemma no_slash_lower (s : string) :
  no_char "/" s = true -> no_char "/" (toLowerCase s) = true.
Proof.
  induction s as [|x s IH]; cbn [no_char toLowerCase]; [trivial|].
  intros H. apply andb_prop in H as [Hx Hs]. apply negb_true_iff in Hx.
  now rewrite (lower_ascii_slash x Hx), IH.
Qed.

Lemma no_bracket_lower (s : string) :
  no_char "[" s = true -> no_char "[" (toLowerCase s) = true.
Proof.
  induction s as [|x s IH]; cbn [no_char toLowerCase]; [trivial|].
  intros H. apply andb_prop in H as [Hx Hs]. apply negb_true_iff in Hx.
  now rewrite (lower_ascii_bracket x Hx), IH.
Qed.

(** A string is cut in one way only at its last [/]. *)
Lemma cut_at_last_slash (a b s t : string) :
  no_char "/" s = true -> no_char "/" t = true ->
  a ++ "/" ++ s = b ++ "/" ++ t -> a = b /\ s = t.
Proof.
  intros Hs Ht. revert b.
  induction a as [|x a IH]; intros [|y b] E;
    rewrite ?append_cons, ?append_nil in E.
  - injection E as E. now split.
  - injection E as <- E. rewrite E, no_char_app in Hs.
    cbn in Hs. now rewrite andb_false_r in Hs.
  - injection E as -> E. rewrite <- E, no_char_app in Ht.
    cbn in Ht. now rewrite andb_false_r in Ht.
  - injection E as -> E. destruct (IH b E) as [-> ->]. now split.
Qed.

(** A name followed by nothing or by an index in brackets is cut in one
    way only. *)
Lemma cut_at_bracket (a b s t : string) :
  no_char "[" a = true -> no_char "[" b = true ->
  (s = "" \/ exists s', s = String "[" s') ->
  (t = "" \/ exists t', t = String "[" t') ->
  a ++ s = b ++ t -> a = b /\ s = t.
Proof.
  intros Ha Hb Hs Ht. revert b Hb.
  induction a as [|x a IH]; intros [|y b] Hb E;
    rewrite ?append_cons, ?append_nil in E.
  - now split.
  - destruct Hs as [->|[s' ->]]; [discriminate|].
    injection E as <- E. cbn in Hb. discriminate.
  - destruct Ht as [->|[t' ->]]; [discriminate|].
    injection E as -> E. cbn in Ha. discriminate.
  - injection E as -> E. cbn [no_char] in Ha, Hb.
    apply andb_prop in Ha as [_ Ha]. apply andb_prop in Hb as [_ Hb].
    destruct (IH Ha b Hb E) as [-> ->]. now split.
Qed.

Lemma length_app (a b : string) :
  String.length (a ++ b) = String.length a + String.length b.
Proof.
  induction a as [|x a IH]; rewrite ?append_cons, ?append_nil;
    [reflexivity|].
  cbn [String.length]. now rewrite IH.
Qed.

Lemma append_cancel_r (a b c : string) : a ++ c = b ++ c -> a = b.
Proof.
  intros E.
  assert (L : String.length a = String.length b).
  { apply (f_equal String.length) in E.
    rewrite !length_app in E. lia. }
  revert b E L. induction a as [|x a IH]; intros [|y b] E L;
    cbn in L; try discriminate; [reflexivity|].
  rewrite !append_cons in E. injection E as -> E.
  f_equal. apply IH; [exact E|lia].
Qed.

Lemma number_toString_inj (z1 z2 : Z) :
  number_toString z1 = number_toString z2 -> z1 = z2.
Proof.
  intros E. pose proof (parseInt10_number z1) as H1.
  rewrite E, parseInt10_number in H1. now injection H1.
Qed.

(** ** Trees *)

Lemma plain_fields t cs :
  plain (Selector.Node t cs) = true ->
  Selector.nodeType t = 1%Z /\ Selector.id t = "" /\
  no_char "/" (Selector.nodeName t) = true /\
  no_char "[" (Selector.nodeName t) = true /\
  names_apart cs = true /\
  (forall c, In c cs -> plain c = true).
Proof.
  cbn [plain]. intros H.
  apply andb_prop in H as [H Hcs]. apply andb_prop in H as [H Hap].
  apply andb_prop in H as [H Hbr]. apply andb_prop in H as [H Hsl].
  apply andb_prop in H as [Hty Hid].
  apply Z.eqb_eq in Hty. apply String.eqb_eq in Hid.
  repeat split; trivial. now apply forallb_forall.
Qed.

Lemma plain_child m i n :
  plain m = true -> nth_error (Selector.children m) i = Some n ->
  plain n = true.
Proof.
  destruct m as [t cs]. intros Hm Hn.
  destruct (plain_fields t cs Hm) as (_ & _ & _ & _ & _ & Hcs).
  apply Hcs. now apply nth_error_In with i.
Qed.

Lemma plain_at top p n :
  plain top = true -> Selector.node_at top p = Some n -> plain n = true.
Proof.
  intros Htop. revert n.
  induction p as [|i p IH]; intros n; cbn [Selector.node_at].
  - now intros [= <-].
  - destruct (Selector.node_at top p) as [m|]; [|discriminate].
    intros Hn. apply (plain_child m i n); auto.
Qed.

Lemma xpath_top top root : Selector.getXPathByElement top [] root = "".
Proof.
  cbn [Selector.getXPathByElement Selector.node_at].
  now destruct (negb _).
Qed.

(** The path of a child is the path of its parent followed by one step. *)
Lemma xpath_step top root i p m n :
  plain top = true ->
  root = None \/ root = Some [] ->
  Selector.node_at top p = Some m ->
  nth_error (Selector.children m) i = Some n ->
  Selector.getXPathByElement top (i :: p) root =
    Selector.getXPathByElement top p root ++ "/" ++ segment m i n.
Proof.
  intros Htop Hroot Hm Hn.
  assert (Hplain : plain n = true)
    by (apply (plain_child m i n); [now apply (plain_at top p)|exact Hn]).
  destruct n as [t cs].
  destruct (plain_fields t cs Hplain) as (Hty & Hid & _).
  cbn [Selector.getXPathByElement Selector.node_at].
  rewrite Hm, Hn. cbn [Selector.tag_of]. rewrite Hty, Hid.
  cbn [Z.eqb Pos.eqb negb String.eqb].
  rewrite bool_decide_eq_false_2 by (destruct Hroot as [-> | ->]; congruence).
  reflexivity.
Qed.

Lemma segment_no_slash m i n :
  plain n = true -> no_char "/" (segment m i n) = true.
Proof.
  intros Hn. destruct n as [t cs].
  destruct (plain_fields t cs Hn) as (_ & _ & Hsl & _).
  unfold segment. cbn [Selector.tag_of].
  rewrite no_char_app, (no_slash_lower _ Hsl).
  destruct (_ <? _)%nat; [|reflexivity].
  rewrite !no_char_app, no_char_number; [reflexivity|].
  intros z. discriminate.
Qed.

Lemma xpath_of_child_not_empty top root i p m n :
  plain top = true ->
  root = None \/ root = Some [] ->
  Selector.node_at top p = Some m ->
  nth_error (Selector.children m) i = Some n ->
  Selector.getXPathByElement top (i :: p) root <> "".
Proof.
  intros Htop Hroot Hm Hn.
  rewrite (xpath_step top root i p m n Htop Hroot Hm Hn).
  destruct (Selector.getXPathByElement top p root); discriminate.
Qed.

(** Counting the children of one name before an index. *)
Lemma count_before {A} (f : A -> bool) (cs : list A) (i j : nat) (x : A) :
  (i < j)%nat -> nth_error cs i = Some x -> f x = true ->
  (List.length (List.filter f (firstn i cs)) <
   List.length (List.filter f (firstn j cs)))%nat.
Proof.
  revert i j. induction cs as [|c cs IH]; intros i j Hij Hx Hf.
  - destruct i; discriminate.
  - destruct j as [|j]; [lia|]. destruct i as [|i].
    + cbn in Hx. injection Hx as ->. cbn. rewrite Hf. cbn. lia.
    + cbn in Hx. cbn [firstn List.filter].
      specialize (IH i j ltac:(lia) Hx Hf).
      destruct (f c); cbn; lia.
Qed.

Lemma count_bounded {A} (f : A -> bool) (cs : list A) (j : nat) :
  (List.length (List.filter f (firstn j cs)) <=
   List.length (List.filter f cs))%nat.
Proof.
  revert j. induction cs as [|c cs IH]; intros [|j]; cbn; try lia.
  specialize (IH j). destruct (f c); cbn; lia.
Qed.

(** Two children of a node that are reached by the same step are the
    same child. *)
Lemma segment_inj m i1 i2 n1 n2 :
  plain m = true ->
  nth_error (Selector.children m) i1 = Some n1 ->
  nth_error (Selector.children m) i2 = Some n2 ->
  segment m i1 n1 = segment m i2 n2 ->
  i1 = i2.
Proof.
  intros Hm H1 H2 E.
  pose proof (plain_child m i1 n1 Hm H1) as P1.
  pose proof (plain_child m i2 n2 Hm H2) as P2.
  destruct m as [tm cs]. cbn [Selector.children] in *.
  destruct (plain_fields tm cs Hm) as (_ & _ & _ & _ & Hap & _).
  destruct n1 as [t1 cs1], n2 as [t2 cs2].
  destruct (plain_fields t1 cs1 P1) as (_ & _ & _ & B1 & _).
  destruct (plain_fields t2 cs2 P2) as (_ & _ & _ & B2 & _).
  unfold segment in E. cbn [Selector.tag_of Selector.children] in E.
  assert (Hform : forall (b : bool) s,
            (if b then "[" ++ s else "") = "" \/
            exists s', (if b then "[" ++ s else "") = String "[" s')
    by (intros [] s; [right; eexists; reflexivity|now left]).
  apply cut_at_bracket in E as [Elow Esuf];
    [| now apply no_bracket_lower | now apply no_bracket_lower
     | apply Hform | apply Hform ].
  assert (Hname : Selector.nodeName t1 = Selector.nodeName t2).
  { unfold names_apart in Hap.
    pose proof (proj1 (forallb_forall _ _) Hap _ (nth_error_In _ _ H1)) as Ha.
    cbn beta in Ha.
    pose proof (proj1 (forallb_forall _ _) Ha _ (nth_error_In _ _ H2)) as Hb.
    cbn [Selector.tag_of] in Hb. rewrite Elow, String.eqb_refl in Hb.
    now apply String.eqb_eq in Hb. }
  assert (Hf : Selector.same_name t2 = Selector.same_name t1)
    by (unfold Selector.same_name; now rewrite Hname).
  rewrite Hf in Esuf.
  assert (S1 : Selector.same_name t1 (Selector.Node t1 cs1) = true)
    by (unfold Selector.same_name; cbn; apply String.eqb_refl).
  assert (S2 : Selector.same_name t1 (Selector.Node t2 cs2) = true)
    by (unfold Selector.same_name; cbn; rewrite Hname;
        apply String.eqb_refl).
  set (f := Selector.same_name t1) in *.
  destruct (Nat.lt_trichotomy i1 i2) as [Hlt|[Heq|Hgt]]; [|exact Heq|];
    exfalso.
  - pose proof (count_before f cs i1 i2 _ Hlt H1 S1) as C1.
    pose proof (count_before f cs i2 (S i2) _ ltac:(lia) H2 S2) as C2.
    pose proof (count_bounded f cs (S i2)) as C3.
    destruct (1 <? List.length (List.filter f cs))%nat eqn:Hmany.
    + rewrite !append_cons, !append_nil in Esuf. injection Esuf as Esuf.
      apply append_cancel_r, number_toString_inj in Esuf. lia.
    + apply Nat.ltb_ge in Hmany. lia.
  - pose proof (count_before f cs i2 i1 _ Hgt H2 S2) as C1.
    pose proof (count_before f cs i1 (S i1) _ ltac:(lia) H1 S1) as C2.
    pose proof (count_bounded f cs (S i1)) as C3.
    destruct (1 <? List.length (List.filter f cs))%nat eqn:Hmany.
    + rewrite !append_cons, !append_nil in Esuf. injection Esuf as Esuf.
      apply append_cancel_r, number_toString_inj in Esuf. lia.
    + apply Nat.ltb_ge in Hmany. lia.
Qed.



(** Names that differ only by case are told apart when the children of
    one name are counted, but not in the path, where they are written in
    lower case: two different children can then have the same path. *)
Example xpath_confuses_names_differing_by_case :
  let element name children :=
    Selector.Node (Selector.Tag 1 name "") children in
  let top := element "svg" [element "foo" []; element "FOO" []] in
  Selector.getXPathByElement top [0] None = "/foo" /\
  Selector.getXPathByElement top [1] None = "/foo".
Proof. split; reflexivity. Qed.
